(** * aigo_service_auth: token lifecycle and password engine

    A shallow embedding of the token service of [jwt.go] and of the
    password components (strength checker, generator, history storage,
    hashers), followed by the properties of the specification that were
    checked against them.

    Conventions.
    - A Go [string] is a Rocq [string] (a sequence of 8-bit characters).
    - [time.Time] is the number of nanoseconds since the Unix epoch, a [Z];
      [time.Duration] is a number of nanoseconds, a [Z].
    - [uint] identities are [N]; Go [int] values are [Z] (no operation of
      the modelled code comes near the 64-bit bounds).
    - Every read of the clock and of the random source is an explicit
      argument of the operation that performs it.
    - The mutex of each service is not modelled: an operation is one
      atomic step on the state of the service. *)

From Stdlib Require Import ZArith NArith String Ascii DecimalString Lia.
From Stdlib.Strings Require Import Byte.
From stdpp Require Import gmap strings list.

Local Open Scope string_scope.

(** ** Results *)

Inductive result (E A : Type) : Type :=
| Ok (a : A)
| Err (e : E).
Arguments Ok {E A} a.
Arguments Err {E A} e.

Definition is_ok {E A} (r : result E A) : bool :=
  match r with Ok _ => true | Err _ => false end.

(** ** Time *)

Definition second : Z := 1000000000.
Definition millisecond : Z := 1000000.
Definition hour : Z := 3600 * second.

(** [jwt.NewNumericDate(t)] is [t.Truncate(jwt.TimePrecision)]; the
    repository never changes [TimePrecision], which is one second.  A
    numeric date is therefore kept as a whole number of seconds. *)
Definition NewNumericDate (t : Z) : Z := (t / second)%Z.

(** The instant (in nanoseconds) a numeric date denotes. *)
Definition dateTime (d : Z) : Z := (d * second)%Z.

(** [a.Before(b)] *)
Definition Before (a b : Z) : bool := (a <? b)%Z.

(** ** Claims and configuration ([jwt.go]) *)

(** [JWTClaims]: the two fields of the repository and the fields of
    [jwt.RegisteredClaims] the service sets (the others stay empty). *)
Record JWTClaims : Type := mkClaims {
  UserID : N;
  JTI : string;
  ExpiresAt : option Z;
  IssuedAt : option Z;
  NotBefore : option Z;
  Issuer : string;
  Subject : string
}.

Record JWTConfig : Type := mkConfig {
  SecretKey : string;
  DefaultExpiration : Z;
  RefreshExpiration : Z;
  cfgIssuer : string;
  AllowRefresh : bool;
  MaxRefreshCount : Z
}.

Definition DefaultJWTConfig : JWTConfig :=
  {| SecretKey := "default-secret-key";
     DefaultExpiration := 24 * hour;
     RefreshExpiration := 7 * 24 * hour;
     cfgIssuer := "aigo_service_auth";
     AllowRefresh := true;
     MaxRefreshCount := 5 |}.

(** ** The token library (github.com/golang-jwt/jwt/v5)

    The library is not part of the repository.  Its three entry points used
    by [jwt.go] are the operations of a class; the laws are the documented
    behaviour of the library that the service relies on. *)

Inductive jwtError : Type :=
| ErrTokenMalformed
| ErrTokenSignatureInvalid
| ErrTokenExpired
| ErrTokenNotValidYet
| ErrSigning.

(** The validator run by [ParseWithClaims] after the signature check:
    [exp] must be after the current time, [nbf] must not be;
    [iat] is not checked by default. *)
Definition validateClaims (now : Z) (c : JWTClaims) : result jwtError JWTClaims :=
  match ExpiresAt c with
  | Some e =>
      if Before now (dateTime e) then
        match NotBefore c with
        | Some n => if Before now (dateTime n) then Err ErrTokenNotValidYet else Ok c
        | None => Ok c
        end
      else Err ErrTokenExpired
  | None =>
      match NotBefore c with
      | Some n => if Before now (dateTime n) then Err ErrTokenNotValidYet else Ok c
      | None => Ok c
      end
  end.

(** A string without any ['.'] cannot be split into the three segments of
    a compact token. *)
Fixpoint dotless (s : string) : bool :=
  match s with
  | EmptyString => true
  | String c r => if Ascii.eqb c "." then false else dotless r
  end.

Class JwtLibrary : Type := {
  (** [jwt.NewWithClaims(jwt.SigningMethodHS256, claims).SignedString(key)] *)
  SignedString : string -> JWTClaims -> result jwtError string;
  (** [jwt.ParseWithClaims(token, &JWTClaims{}, keyfunc)], with the key
      function of [ParseToken] (HMAC methods only, the service key) and the
      clock reading the validator takes. *)
  ParseWithClaims : string -> Z -> string -> result jwtError JWTClaims;
  (** [new(jwt.Parser).ParseUnverified(token, &JWTClaims{})] *)
  ParseUnverified : string -> result jwtError JWTClaims;
  (** HMAC signing with a byte-slice key does not fail. *)
  sign_succeeds : forall key c, is_ok (SignedString key c) = true;
  (** A token signed with the key parses back to its claims, which are
      then validated against the clock. *)
  parse_signed : forall key c t now,
    SignedString key c = Ok t -> ParseWithClaims key now t = validateClaims now c;
  (** Without verification the claims come back as they were signed. *)
  unverified_signed : forall key c t,
    SignedString key c = Ok t -> ParseUnverified t = Ok c;
  (** What parses with verification parses without, to the same claims. *)
  unverified_parsed : forall key now t c,
    ParseWithClaims key now t = Ok c -> ParseUnverified t = Ok c;
  (** A string with no segment separator is malformed. *)
  parse_dotless : forall key now t,
    dotless t = true -> ParseWithClaims key now t = Err ErrTokenMalformed;
  unverified_dotless : forall t,
    dotless t = true -> ParseUnverified t = Err ErrTokenMalformed
}.

(** ** The token service ([jwt.go]) *)

Inductive Error : Type :=
| ErrUserIDZero                      (* 用户ID不能为0 *)
| ErrExpirationNotPositive           (* 过期时间必须大于0 *)
| ErrGenerateFailed (e : jwtError)   (* 生成Token失败 *)
| ErrTokenEmpty                      (* Token不能为空 *)
| ErrTokenRevoked                    (* Token已被撤销 *)
| ErrParseFailed (e : jwtError)      (* 解析Token失败 *)
| ErrRefreshNotAllowed               (* 不允许刷新Token *)
| ErrParseOriginalFailed (e : Error) (* 解析原Token失败 *)
| ErrRefreshLimit                    (* Token刷新次数已达上限 *)
| ErrRefreshTooEarly                 (* Token还未到刷新时间 *)
| ErrGenerateNewFailed (e : Error)   (* 生成新Token失败 *)
| ErrRevokeOriginalFailed (e : Error)(* 撤销原Token失败 *).

Record jwtService : Type := mkService {
  config : JWTConfig;
  secretKey : string;
  revokedTokens : gmap string Z;
  userTokens : gmap N (list string);
  tokenUsers : gmap string N;
  refreshCounts : gmap string Z
}.

Definition NewJWTService (cfg : option JWTConfig) : jwtService :=
  let cfg := match cfg with Some c => c | None => DefaultJWTConfig end in
  {| config := cfg;
     secretKey := SecretKey cfg;
     revokedTokens := ∅;
     userTokens := ∅;
     tokenUsers := ∅;
     refreshCounts := ∅ |}.

(** [hex.EncodeToString] *)
Definition hexDigit (n : N) : ascii :=
  match n with
  | 0%N => "0" | 1%N => "1" | 2%N => "2" | 3%N => "3"
  | 4%N => "4" | 5%N => "5" | 6%N => "6" | 7%N => "7"
  | 8%N => "8" | 9%N => "9" | 10%N => "a" | 11%N => "b"
  | 12%N => "c" | 13%N => "d" | 14%N => "e" | _ => "f"
  end%char.

Fixpoint hexEncodeToString (bs : list byte) : string :=
  match bs with
  | [] => ""
  | b :: r =>
      String (hexDigit (Byte.to_N b / 16)) (String (hexDigit (Byte.to_N b mod 16))
        (hexEncodeToString r))
  end.

(** [GenerateJTI]: [rnd] is what [rand.Read] put into the 16-byte buffer. *)
Definition GenerateJTI (rnd : list byte) : string := hexEncodeToString rnd.

(** [fmt.Sprintf("user:%d", userID)] *)
Definition subjectOf (userID : N) : string :=
  "user:" ++ NilZero.string_of_uint (N.to_uint userID).

Section TokenService.
Context `{JwtLibrary}.

(** The claims [GenerateTokenWithExpiration] builds. *)
Definition claimsFor (cfg : JWTConfig) (now : Z) (rnd : list byte)
    (userID : N) (expiration : Z) : JWTClaims :=
  {| UserID := userID;
     JTI := GenerateJTI rnd;
     ExpiresAt := Some (NewNumericDate (now + expiration));
     IssuedAt := Some (NewNumericDate now);
     NotBefore := Some (NewNumericDate now);
     Issuer := cfgIssuer cfg;
     Subject := subjectOf userID |}.

Definition GenerateTokenWithExpiration (s : jwtService) (now : Z) (rnd : list byte)
    (userID : N) (expiration : Z) : result Error string * jwtService :=
  if (userID =? 0)%N then (Err ErrUserIDZero, s)
  else if (expiration <=? 0)%Z then (Err ErrExpirationNotPositive, s)
  else
    match SignedString (secretKey s) (claimsFor (config s) now rnd userID expiration) with
    | Err e => (Err (ErrGenerateFailed e), s)
    | Ok tokenString =>
        (Ok tokenString,
         {| config := config s;
            secretKey := secretKey s;
            revokedTokens := revokedTokens s;
            userTokens :=
              <[userID := (default [] (userTokens s !! userID) ++ [tokenString])%list]>
                (userTokens s);
            tokenUsers := <[tokenString := userID]> (tokenUsers s);
            refreshCounts := refreshCounts s |})
    end.

Definition GenerateToken (s : jwtService) (now : Z) (rnd : list byte) (userID : N)
    : result Error string * jwtService :=
  GenerateTokenWithExpiration s now rnd userID (DefaultExpiration (config s)).

Definition IsTokenRevoked (s : jwtService) (tokenString : string) : bool :=
  match revokedTokens s !! tokenString with
  | Some _ => true
  | None => false
  end.

(** When the library reports no error the token it returns is valid, so
    the last return of [ParseToken] is not reached. *)
Definition ParseToken (s : jwtService) (now : Z) (tokenString : string)
    : result Error JWTClaims :=
  if String.eqb tokenString "" then Err ErrTokenEmpty
  else
    match ParseWithClaims (secretKey s) now tokenString with
    | Err e => Err (ErrParseFailed e)
    | Ok claims => Ok claims
    end.

Definition ValidateToken (s : jwtService) (now : Z) (tokenString : string)
    : result Error N :=
  if String.eqb tokenString "" then Err ErrTokenEmpty
  else if IsTokenRevoked s tokenString then Err ErrTokenRevoked
  else
    match ParseToken s now tokenString with
    | Err e => Err e
    | Ok claims => Ok (UserID claims)
    end.

Definition RevokeToken (s : jwtService) (now : Z) (tokenString : string)
    : result Error unit * jwtService :=
  if String.eqb tokenString "" then (Err ErrTokenEmpty, s)
  else
    let revoked := <[tokenString := now]> (revokedTokens s) in
    let '(uts, tus) :=
      match tokenUsers s !! tokenString with
      | Some userID =>
          (match userTokens s !! userID with
           | Some tokens =>
               <[userID := filter (fun token => token ≠ tokenString) tokens]>
                 (userTokens s)
           | None => userTokens s
           end,
           delete tokenString (tokenUsers s))
      | None => (userTokens s, tokenUsers s)
      end in
    (Ok tt,
     {| config := config s;
        secretKey := secretKey s;
        revokedTokens := revoked;
        userTokens := uts;
        tokenUsers := tus;
        refreshCounts := delete tokenString (refreshCounts s) |}).

Definition parseTokenUnsafe (tokenString : string) : result jwtError JWTClaims :=
  ParseUnverified tokenString.

(** The condition under which the first loop of [CleanupExpiredTokens]
    puts a revoked token on its removal list. *)
Definition cleanupSelects (now : Z) (tokenString : string) : bool :=
  match parseTokenUnsafe tokenString with
  | Err _ => true
  | Ok claims =>
      match ExpiresAt claims with
      | Some e => Before (dateTime e) now
      | None => false
      end
  end.

Definition CleanupExpiredTokens (s : jwtService) (now : Z) : jwtService :=
  let expiredTokens :=
    filter (fun tokenString => cleanupSelects now tokenString = true)
           (map fst (map_to_list (revokedTokens s))) in
  {| config := config s;
     secretKey := secretKey s;
     revokedTokens := foldr delete (revokedTokens s) expiredTokens;
     userTokens := userTokens s;
     tokenUsers := tokenUsers s;
     refreshCounts := refreshCounts s |}.

(** The four clock readings of one [RefreshToken] call, in program order:
    by the validator inside [ParseToken], by the window check, by
    [GenerateToken] and by [RevokeToken]. *)
Record refreshClock : Type := mkClock {
  atParse : Z;
  atWindow : Z;
  atIssue : Z;
  atRevoke : Z
}.

Definition clockAt (now : Z) : refreshClock :=
  {| atParse := now; atWindow := now; atIssue := now; atRevoke := now |}.

Definition setRefreshCount (s : jwtService) (tokenString : string) (n : Z) : jwtService :=
  {| config := config s;
     secretKey := secretKey s;
     revokedTokens := revokedTokens s;
     userTokens := userTokens s;
     tokenUsers := tokenUsers s;
     refreshCounts := <[tokenString := n]> (refreshCounts s) |}.

Definition dropRefreshCount (s : jwtService) (tokenString : string) : jwtService :=
  {| config := config s;
     secretKey := secretKey s;
     revokedTokens := revokedTokens s;
     userTokens := userTokens s;
     tokenUsers := tokenUsers s;
     refreshCounts := delete tokenString (refreshCounts s) |}.

(** The window test of [RefreshToken]: the current time is before
    [ExpiresAt - RefreshExpiration]. *)
Definition beforeRefreshDeadline (cfg : JWTConfig) (now : Z) (claims : JWTClaims) : bool :=
  match ExpiresAt claims with
  | Some e => Before now (dateTime e - RefreshExpiration cfg)
  | None => false
  end.

Definition RefreshToken (s : jwtService) (clk : refreshClock) (rnd : list byte)
    (tokenString : string) : result Error string * jwtService :=
  if negb (AllowRefresh (config s)) then (Err ErrRefreshNotAllowed, s)
  else if String.eqb tokenString "" then (Err ErrTokenEmpty, s)
  else
    match ParseToken s (atParse clk) tokenString with
    | Err e => (Err (ErrParseOriginalFailed e), s)
    | Ok claims =>
        let refreshCount := default 0%Z (refreshCounts s !! tokenString) in
        if (MaxRefreshCount (config s) <=? refreshCount)%Z then (Err ErrRefreshLimit, s)
        else if beforeRefreshDeadline (config s) (atWindow clk) claims
        then (Err ErrRefreshTooEarly, s)
        else
          match GenerateToken s (atIssue clk) rnd (UserID claims) with
          | (Err e, s1) => (Err (ErrGenerateNewFailed e), s1)
          | (Ok newToken, s1) =>
              let s2 := setRefreshCount s1 newToken (refreshCount + 1) in
              match RevokeToken s2 (atRevoke clk) tokenString with
              | (Err e, s3) => (Err (ErrRevokeOriginalFailed e), dropRefreshCount s3 newToken)
              | (Ok _, s3) => (Ok newToken, s3)
              end
          end
    end.

Definition RevokeAllUserTokens (s : jwtService) (now : Z) (userID : N)
    : result Error unit * jwtService :=
  if (userID =? 0)%N then (Err ErrUserIDZero, s)
  else
    match userTokens s !! userID with
    | None => (Ok tt, s)
    | Some tokens =>
        (Ok tt,
         {| config := config s;
            secretKey := secretKey s;
            revokedTokens :=
              foldl (fun m tokenString => <[tokenString := now]> m) (revokedTokens s) tokens;
            userTokens := delete userID (userTokens s);
            tokenUsers := foldl (fun m tokenString => delete tokenString m) (tokenUsers s) tokens;
            refreshCounts :=
              foldl (fun m tokenString => delete tokenString m) (refreshCounts s) tokens |})
    end.

(** *** Runs of the service

    A call that changes the state, with the clock readings and random
    bytes it consumes. *)
Inductive Call : Type :=
| CallGenerate (now : Z) (rnd : list byte) (userID : N) (expiration : Z)
| CallRevoke (now : Z) (tokenString : string)
| CallCleanup (now : Z)
| CallRefresh (clk : refreshClock) (rnd : list byte) (tokenString : string)
| CallRevokeAll (now : Z) (userID : N).

Definition call (s : jwtService) (c : Call) : jwtService :=
  match c with
  | CallGenerate now rnd userID expiration =>
      snd (GenerateTokenWithExpiration s now rnd userID expiration)
  | CallRevoke now tokenString => snd (RevokeToken s now tokenString)
  | CallCleanup now => CleanupExpiredTokens s now
  | CallRefresh clk rnd tokenString => snd (RefreshToken s clk rnd tokenString)
  | CallRevokeAll now userID => snd (RevokeAllUserTokens s now userID)
  end.

Definition run (s : jwtService) (cs : list Call) : jwtService := foldl call s cs.

(** A cleanup of the run takes [tokenString] off the revocation map only
    if its test selects it. *)
Definition cleanupSpares (tokenString : string) (c : Call) : bool :=
  match c with
  | CallCleanup now => negb (cleanupSelects now tokenString)
  | _ => true
  end.

(** Successive refreshes of one lineage: each call is made on the token
    the previous successful call returned. *)
Fixpoint refreshLineage (s : jwtService) (tokenString : string)
    (calls : list (refreshClock * list byte))
    : list (result Error string) * jwtService :=
  match calls with
  | [] => ([], s)
  | (clk, rnd) :: rest =>
      match RefreshToken s clk rnd tokenString with
      | (Ok newToken, s1) =>
          let '(rs, s2) := refreshLineage s1 newToken rest in
          (Ok newToken :: rs, s2)
      | (Err e, s1) =>
          let '(rs, s2) := refreshLineage s1 tokenString rest in
          (Err e :: rs, s2)
      end
  end.

End TokenService.

(** The conditions under which every call of a lineage run finds the
    refresh window open: when call [i] is made, the current token of the
    lineage (with claims [cur]) passes validation, the window test lets it
    through, and the random bytes of the call give an identifier other
    than the current token's. *)
Fixpoint lineageOpen (cfg : JWTConfig) (cur : JWTClaims)
    (calls : list (refreshClock * list byte)) : bool :=
  match calls with
  | [] => true
  | (clk, rnd) :: rest =>
      is_ok (validateClaims (atParse clk) cur) &&
      negb (beforeRefreshDeadline cfg (atWindow clk) cur) &&
      negb (String.eqb (GenerateJTI rnd) (JTI cur)) &&
      lineageOpen cfg
        (claimsFor cfg (atIssue clk) rnd (UserID cur) (DefaultExpiration cfg)) rest
  end.

(** The expiry of a revoked token has passed: it parses and its expiry
    claim is before the current time. *)
Definition expiryPassed `{JwtLibrary} (now : Z) (tokenString : string) : bool :=
  match parseTokenUnsafe tokenString with
  | Ok claims =>
      match ExpiresAt claims with
      | Some e => Before (dateTime e) now
      | None => false
      end
  | Err _ => false
  end.

Definition unparseable `{JwtLibrary} (tokenString : string) : bool :=
  negb (is_ok (parseTokenUnsafe tokenString)).

(** ** Strings of the password components

    Passwords are taken to be ASCII: for such strings a rune is a byte,
    [len] is the number of characters and [strings.ToLower] is the ASCII
    case map.  Statements over all passwords carry [isASCII]. *)

Definition isASCIIChar (c : ascii) : bool := (N_of_ascii c <? 128)%N.

Fixpoint isASCII (s : string) : bool :=
  match s with
  | EmptyString => true
  | String c r => isASCIIChar c && isASCII r
  end.

(** [len(s)] *)
Definition len (s : string) : Z := Z.of_nat (String.length s).

(** [strings.ContainsRune(chars, c)] *)
Fixpoint ContainsRune (chars : string) (c : ascii) : bool :=
  match chars with
  | EmptyString => false
  | String d r => Ascii.eqb d c || ContainsRune r c
  end.

(** [strings.ContainsAny(s, chars)] *)
Fixpoint ContainsAny (s chars : string) : bool :=
  match s with
  | EmptyString => false
  | String c r => ContainsRune chars c || ContainsAny r chars
  end.

Definition toLowerChar (c : ascii) : ascii :=
  let n := N_of_ascii c in
  if ((65 <=? n) && (n <=? 90))%N then ascii_of_N (n + 32) else c.

(** [strings.ToLower(s)] *)
Fixpoint ToLower (s : string) : string :=
  match s with
  | EmptyString => EmptyString
  | String c r => String (toLowerChar c) (ToLower r)
  end.

(** [strings.HasPrefix(s, p)] *)
Fixpoint HasPrefix (s p : string) : bool :=
  match p with
  | EmptyString => true
  | String c p' =>
      match s with
      | EmptyString => false
      | String d s' => Ascii.eqb c d && HasPrefix s' p'
      end
  end.

(** [strings.Contains(s, sub)] *)
Fixpoint Contains (s sub : string) : bool :=
  HasPrefix s sub ||
  match s with
  | EmptyString => false
  | String _ s' => Contains s' sub
  end.

(** [re.MatchString(s)] for a pattern that is an alternation of literals. *)
Definition matchesAny (alternatives : list string) (s : string) : bool :=
  existsb (Contains s) alternatives.

(** ** Password constants *)

Definition LowerChars : string := "abcdefghijklmnopqrstuvwxyz".
Definition UpperChars : string := "ABCDEFGHIJKLMNOPQRSTUVWXYZ".
Definition NumberChars : string := "0123456789".
Definition SymbolChars : string := "!@#$%^&*()_+-=[]{}|;:,.<>?".
Definition AmbiguousChars : string := "0O1lI|`".

Definition commonPasswords : list string :=
  [ "password"; "123456"; "123456789"; "qwerty"; "abc123"; "password123";
    "admin"; "letmein"; "welcome"; "monkey"; "dragon"; "master"; "shadow";
    "superman"; "michael"; "football"; "baseball"; "liverpool" ].

Definition sequentialPattern : list string :=
  [ "abc"; "bcd"; "cde"; "def"; "efg"; "fgh"; "ghi"; "hij"; "ijk"; "jkl";
    "klm"; "lmn"; "mno"; "nop"; "opq"; "pqr"; "qrs"; "rst"; "stu"; "tuv";
    "uvw"; "vwx"; "wxy"; "xyz"; "012"; "123"; "234"; "345"; "456"; "567";
    "678"; "789" ].

Definition keyboardPattern : list string :=
  [ "qwe"; "wer"; "ert"; "rty"; "tyu"; "yui"; "uio"; "iop"; "asd"; "sdf";
    "dfg"; "fgh"; "ghj"; "hjk"; "jkl"; "zxc"; "xcv"; "cvb"; "vbn"; "bnm" ].

Inductive PwError : Type :=
| ErrPasswordEmpty
| ErrInvalidOptions
| ErrHashingFailed
| ErrInvalidHash
| ErrInvalidUserID
| ErrRandRead.   (* the error of a failed [rand.Read] *)

(** ** PasswordStrengthChecker *)

Inductive StrengthLevel : Type :=
| StrengthWeak | StrengthMedium | StrengthStrong | StrengthVeryStrong.

(** The feedback messages of [CheckStrength], one constructor per text. *)
Inductive Advice : Type :=
| AdviceNotEmpty | AdviceLength | AdviceLower | AdviceUpper | AdviceNumbers
| AdviceSymbols | AdviceUnique | AdviceSequential | AdviceRepeated
| AdviceKeyboard | AdviceCommon.

(** [PasswordStrength] without its two floating-point fields ([Entropy]
    and the label derived from it), which the score does not depend on. *)
Record PasswordStrength : Type := mkStrength {
  Score : Z;
  Level : StrengthLevel;
  Feedback : list Advice
}.

Record PasswordStrengthChecker : Type := mkChecker {
  enableDictionaryCheck : bool
}.

Definition countUniqueChars (password : string) : Z :=
  Z.of_nat (List.length (remove_dups (list_ascii_of_string password))).

(** The loop of [hasRepeatedChars] from index [i] on: [prev] is
    [password[i-1]] and [count] the length of the run that ends there. *)
Fixpoint repeatedFrom (prev : ascii) (count : Z) (rest : string) : bool :=
  match rest with
  | EmptyString => false
  | String c r =>
      if Ascii.eqb c prev then
        if (3 <=? count + 1)%Z then true else repeatedFrom c (count + 1) r
      else repeatedFrom c 1 r
  end.

Definition hasRepeatedChars (password : string) : bool :=
  if (len password <? 3)%Z then false
  else
    match password with
    | EmptyString => false
    | String c r => repeatedFrom c 1 r
    end.

Definition hasSequentialPattern (password : string) : bool :=
  matchesAny sequentialPattern (ToLower password).

Definition hasRepeatedPattern (password : string) : bool :=
  hasRepeatedChars password.

Definition hasKeyboardPattern (password : string) : bool :=
  matchesAny keyboardPattern (ToLower password).

Definition isCommonPassword (password : string) : bool :=
  existsb (String.eqb (ToLower password)) commonPasswords.

Definition getStrengthLevel (score : Z) : StrengthLevel :=
  if (score <? 30)%Z then StrengthWeak
  else if (score <? 60)%Z then StrengthMedium
  else if (score <? 80)%Z then StrengthStrong
  else StrengthVeryStrong.

(** One [if ... { score += d } else { feedback = append(feedback, a) }]
    step on the pair the function accumulates. *)
Definition award (cond : bool) (d : Z) (a : Advice) (acc : Z * list Advice)
    : Z * list Advice :=
  if cond then ((fst acc + d)%Z, snd acc) else (fst acc, (snd acc ++ [a])%list).

(** One [if ... { score -= d; feedback = append(feedback, a) }] step. *)
Definition penalise (cond : bool) (d : Z) (a : Advice) (acc : Z * list Advice)
    : Z * list Advice :=
  if cond then ((fst acc - d)%Z, (snd acc ++ [a])%list) else acc.

Definition lengthScore (length : Z) : Z :=
  if (length <? 8)%Z then 0
  else if (length <? 12)%Z then 20
  else if (length <? 16)%Z then 30
  else 40.

(** The number of character classes present, [charTypeCount]. *)
Definition charTypeCount (password : string) : Z :=
  ((if ContainsAny password LowerChars then 1 else 0) +
   (if ContainsAny password UpperChars then 1 else 0) +
   (if ContainsAny password NumberChars then 1 else 0) +
   (if ContainsAny password SymbolChars then 1 else 0))%Z.

Definition clampScore (score : Z) : Z :=
  let score := if (score <? 0)%Z then 0%Z else score in
  if (100 <? score)%Z then 100%Z else score.

Definition CheckStrength (c : PasswordStrengthChecker) (password : string)
    : PasswordStrength :=
  if String.eqb password "" then
    {| Score := 0; Level := StrengthWeak; Feedback := [AdviceNotEmpty] |}
  else
    let length := len password in
    let acc := (0%Z, @nil Advice) in
    let acc := award (8 <=? length)%Z (lengthScore length) AdviceLength acc in
    let acc := award (ContainsAny password LowerChars) 0 AdviceLower acc in
    let acc := award (ContainsAny password UpperChars) 0 AdviceUpper acc in
    let acc := award (ContainsAny password NumberChars) 0 AdviceNumbers acc in
    let acc := award (ContainsAny password SymbolChars) 0 AdviceSymbols acc in
    let acc := ((fst acc + charTypeCount password * 10)%Z, snd acc) in
    let acc :=
      award (negb (countUniqueChars password <? Z.quot length 2)%Z) 10 AdviceUnique acc in
    let acc := penalise (hasSequentialPattern password) 10 AdviceSequential acc in
    let acc := penalise (hasRepeatedPattern password) 10 AdviceRepeated acc in
    let acc := penalise (hasKeyboardPattern password) 10 AdviceKeyboard acc in
    let acc :=
      penalise (enableDictionaryCheck c && isCommonPassword password) 20 AdviceCommon acc in
    let score := clampScore (fst acc) in
    {| Score := score; Level := getStrengthLevel score; Feedback := snd acc |}.

(** What the uniqueness bonus and the pattern and dictionary penalties of
    [CheckStrength] add up to for a password. *)
Definition patternAdjustment (c : PasswordStrengthChecker) (password : string) : Z :=
  ((if (countUniqueChars password <? Z.quot (len password) 2)%Z then 0 else 10)
   - (if hasSequentialPattern password then 10 else 0)
   - (if hasRepeatedPattern password then 10 else 0)
   - (if hasKeyboardPattern password then 10 else 0)
   - (if enableDictionaryCheck c && isCommonPassword password then 20 else 0))%Z.

(** ** PasswordGenerator *)

Record GenerateOptions : Type := mkOptions {
  Length : Z;
  IncludeLower : bool;
  IncludeUpper : bool;
  IncludeNumbers : bool;
  IncludeSymbols : bool;
  ExcludeAmbiguous : bool;
  CustomCharset : string
}.

(** The random source: the [n]-th call of [rand.Read] on a 4-byte buffer
    either fails or fills the buffer. *)
Definition Rand : Type := nat -> option (byte * byte * byte * byte).

(** The outcome of a call that may not return: [OutOfFuel] stands for a
    recursion deeper than the fuel given. *)
Inductive outcome (A : Type) : Type :=
| Done (a : A)
| Failed (e : PwError)
| OutOfFuel.
Arguments Done {A} a.
Arguments Failed {A} e.
Arguments OutOfFuel {A}.

Definition validateOptions (options : GenerateOptions) : result PwError unit :=
  if (Length options <=? 0)%Z then Err ErrInvalidOptions
  else if (256 <? Length options)%Z then Err ErrInvalidOptions
  else if negb (IncludeLower options) && negb (IncludeUpper options) &&
          negb (IncludeNumbers options) && negb (IncludeSymbols options) &&
          String.eqb (CustomCharset options) ""
  then Err ErrInvalidOptions
  else Ok tt.

Fixpoint removeAmbiguousChars (charset : string) : string :=
  match charset with
  | EmptyString => EmptyString
  | String c r =>
      if ContainsRune AmbiguousChars c then removeAmbiguousChars r
      else String c (removeAmbiguousChars r)
  end.

Definition buildCharset (options : GenerateOptions) : string :=
  if negb (String.eqb (CustomCharset options) "") then
    if ExcludeAmbiguous options then removeAmbiguousChars (CustomCharset options)
    else CustomCharset options
  else
    let charset :=
      (if IncludeLower options then LowerChars else "") ++
      (if IncludeUpper options then UpperChars else "") ++
      (if IncludeNumbers options then NumberChars else "") ++
      (if IncludeSymbols options then SymbolChars else "") in
    if ExcludeAmbiguous options then removeAmbiguousChars charset else charset.

(** [secureRandomInt(max)] reading the source at position [pos]; the
    second component is the position after the call.  [int] is 64 bits
    wide, so the value assembled from four bytes is not negative and the
    sign test never fires. *)
Definition secureRandomInt (rnd : Rand) (pos : nat) (max : Z) : result PwError Z * nat :=
  if (max <=? 0)%Z then (Err ErrInvalidOptions, pos)
  else
    match rnd pos with
    | None => (Err ErrRandRead, S pos)
    | Some (b0, b1, b2, b3) =>
        let byteZ b := Z.of_N (Byte.to_N b) in
        let randomInt :=
          Z.lor (Z.lor (Z.lor (Z.shiftl (byteZ b0) 24) (Z.shiftl (byteZ b1) 16))
                       (Z.shiftl (byteZ b2) 8)) (byteZ b3) in
        let randomInt := if (randomInt <? 0)%Z then (- randomInt)%Z else randomInt in
        (Ok (Z.rem randomInt max), S pos)
    end.

(** [s[i]]; every index the generator uses is below [len(s)]. *)
Definition charAt (s : string) (i : Z) : ascii :=
  default "000"%char (String.get (Z.to_nat i) s).

(** The loop that fills [password]: [n] characters still to draw. *)
Fixpoint drawPassword (rnd : Rand) (pos : nat) (charset : string) (n : nat)
    : result PwError string * nat :=
  match n with
  | O => (Ok "", pos)
  | S n' =>
      match secureRandomInt rnd pos (len charset) with
      | (Err e, pos1) => (Err e, pos1)
      | (Ok randomIndex, pos1) =>
          match drawPassword rnd pos1 charset n' with
          | (Err e, pos2) => (Err e, pos2)
          | (Ok r, pos2) => (Ok (String (charAt charset randomIndex) r), pos2)
          end
      end
  end.

Definition meetsRequirements (password : string) (options : GenerateOptions) : bool :=
  if negb (String.eqb (CustomCharset options) "") then true
  else if IncludeLower options && negb (ContainsAny password LowerChars) then false
  else if IncludeUpper options && negb (ContainsAny password UpperChars) then false
  else if IncludeNumbers options && negb (ContainsAny password NumberChars) then false
  else if IncludeSymbols options && negb (ContainsAny password SymbolChars) then false
  else true.

(** One patch step of [ensureRequirements]: the state is the rune slice,
    the next position to overwrite and the position in the random source.
    The error of [secureRandomInt] is dropped, which leaves index 0. *)
Definition patchClass (rnd : Rand) (wanted : bool) (password chars : string)
    (st : list ascii * nat * nat) : list ascii * nat * nat :=
  let '(result, position, pos) := st in
  if wanted && negb (ContainsAny password chars) then
    if (position <? List.length result)%nat then
      let '(r, pos1) := secureRandomInt rnd pos (len chars) in
      let randomIndex := match r with Ok i => i | Err _ => 0%Z end in
      (<[position := charAt chars randomIndex]> result, S position, pos1)
    else st
  else st.

Definition ensureRequirements (rnd : Rand) (pos : nat) (password : string)
    (options : GenerateOptions) : string * nat :=
  if negb (String.eqb (CustomCharset options) "") then (password, pos)
  else
    let st := (list_ascii_of_string password, 0, pos) in
    let st := patchClass rnd (IncludeLower options) password LowerChars st in
    let st := patchClass rnd (IncludeUpper options) password UpperChars st in
    let st := patchClass rnd (IncludeNumbers options) password NumberChars st in
    let st := patchClass rnd (IncludeSymbols options) password SymbolChars st in
    let '(result, _, pos1) := st in
    (string_of_list_ascii result, pos1).

(** The retry loop of [GeneratePassword]: [gen] is the recursive call,
    [attempts] the iterations left.  [Done (Some r)] is the [return] from
    inside the loop, [Done None] leaving the loop after the last attempt. *)
Fixpoint retryLoop (gen : nat -> outcome string * nat) (meets : string -> bool)
    (attempts : nat) (pos : nat) : outcome (option string) * nat :=
  match attempts with
  | O => (Done None, pos)
  | S attempts' =>
      match gen pos with
      | (Done r, pos1) =>
          if meets r then (Done (Some r), pos1)
          else retryLoop gen meets attempts' pos1
      | (Failed e, pos1) => (Failed e, pos1)
      | (OutOfFuel, pos1) => (OutOfFuel, pos1)
      end
  end.

(** [GeneratePassword]; [fuel] bounds the depth of its recursion. *)
Fixpoint GeneratePassword (fuel : nat) (rnd : Rand) (pos : nat)
    (options : GenerateOptions) {struct fuel} : outcome string * nat :=
  match fuel with
  | O => (OutOfFuel, pos)
  | S fuel' =>
      match validateOptions options with
      | Err e => (Failed e, pos)
      | Ok _ =>
          let charset := buildCharset options in
          if String.eqb charset "" then (Failed ErrInvalidOptions, pos)
          else
            match drawPassword rnd pos charset (Z.to_nat (Length options)) with
            | (Err e, pos1) => (Failed e, pos1)
            | (Ok result, pos1) =>
                if meetsRequirements result options then (Done result, pos1)
                else
                  match retryLoop (fun p => GeneratePassword fuel' rnd p options)
                                  (fun r => meetsRequirements r options) 10 pos1 with
                  | (Done (Some r), pos2) => (Done r, pos2)
                  | (Done None, pos2) =>
                      let '(r, pos3) := ensureRequirements rnd pos2 result options in
                      (Done r, pos3)
                  | (Failed e, pos2) => (Failed e, pos2)
                  | (OutOfFuel, pos2) => (OutOfFuel, pos2)
                  end
            end
      end
  end.

(** The number of character classes the options request. *)
Definition requestedClassCount (options : GenerateOptions) : Z :=
  ((if IncludeLower options then 1 else 0) +
   (if IncludeUpper options then 1 else 0) +
   (if IncludeNumbers options then 1 else 0) +
   (if IncludeSymbols options then 1 else 0))%Z.

(** ** MemoryHistoryStorage *)

Record PasswordHistory : Type := mkHistory {
  histUserID : N;
  PasswordHash : string;
  CreatedAt : Z
}.

Record MemoryHistoryStorage : Type := mkStorage {
  histories : gmap N (list PasswordHistory)
}.

Definition NewMemoryHistoryStorage : MemoryHistoryStorage :=
  {| histories := ∅ |}.

(** [Add]; [now] is the reading of [time.Now()]. *)
Definition Storage_Add (s : MemoryHistoryStorage) (now : Z) (userID : N) (hash : string)
    : result PwError unit * MemoryHistoryStorage :=
  if (userID =? 0)%N then (Err ErrInvalidUserID, s)
  else if String.eqb hash "" then (Err ErrInvalidHash, s)
  else
    let history := {| histUserID := userID; PasswordHash := hash; CreatedAt := now |} in
    (Ok tt,
     {| histories :=
          <[userID := (default [] (histories s !! userID) ++ [history])%list]>
            (histories s) |}).

Definition Storage_GetHistory (s : MemoryHistoryStorage) (userID : N) (limit : Z)
    : result PwError (list PasswordHistory) :=
  if (userID =? 0)%N then Err ErrInvalidUserID
  else
    match histories s !! userID with
    | None => Ok []
    | Some hs =>
        let result := reverse hs in
        if ((0 <? limit) && (limit <? Z.of_nat (List.length result)))%Z
        then Ok (take (Z.to_nat limit) result)
        else Ok result
    end.

(** How a call of [Cleanup] ends: it returns, or the slice expression
    [histories[:keepCount]] panics on a negative bound. *)
Inductive ending : Type :=
| Returns (r : result PwError unit)
| Panics.

(** [Cleanup].  The reversal is done in place on the stored slice, so it
    is visible in the state even when the slicing that follows panics. *)
Definition Storage_Cleanup (s : MemoryHistoryStorage) (userID : N) (keepCount : Z)
    : ending * MemoryHistoryStorage :=
  if (userID =? 0)%N then (Returns (Err ErrInvalidUserID), s)
  else
    match histories s !! userID with
    | None => (Returns (Ok tt), s)
    | Some hs =>
        if (Z.of_nat (List.length hs) <=? keepCount)%Z then (Returns (Ok tt), s)
        else
          let reversed := reverse hs in
          if (keepCount <? 0)%Z then
            (Panics, {| histories := <[userID := reversed]> (histories s) |})
          else
            (Returns (Ok tt),
             {| histories := <[userID := take (Z.to_nat keepCount) reversed]> (histories s) |})
    end.

(** The hashes stored for an identity, in storage order. *)
Definition storedHashes (s : MemoryHistoryStorage) (userID : N) : list string :=
  map PasswordHash (default [] (histories s !! userID)).

(** The calls on a history storage that change it. *)
Inductive HistoryCall : Type :=
| HAdd (now : Z) (userID : N) (hash : string)
| HCleanup (userID : N) (keepCount : Z).

Definition historyCall (s : MemoryHistoryStorage) (c : HistoryCall) : MemoryHistoryStorage :=
  match c with
  | HAdd now userID hash => snd (Storage_Add s now userID hash)
  | HCleanup userID keepCount => snd (Storage_Cleanup s userID keepCount)
  end.

(** The hashes successfully added for an identity over a run of calls,
    oldest first. *)
Fixpoint addedHashes (userID : N) (cs : list HistoryCall) : list string :=
  match cs with
  | [] => []
  | HAdd _ u hash :: rest =>
      if (u =? userID)%N && negb (u =? 0)%N && negb (String.eqb hash "")
      then hash :: addedHashes userID rest
      else addedHashes userID rest
  | HCleanup _ _ :: rest => addedHashes userID rest
  end.

(** The [n] most recent elements of a list kept oldest first. *)
Definition mostRecent {A} (n : nat) (l : list A) : list A :=
  drop (List.length l - n) l.

(** ** Hashers *)

Section Hashers.
(** [bcrypt.GenerateFromPassword(password, cost)]: [None] is an error. *)
Variable bcryptGenerateFromPassword : string -> Z -> option string.
(** [argon2.IDKey(password, salt, time, memory, threads, keyLen)] *)
Variable argon2IDKey : string -> list byte -> Z -> Z -> Z -> Z -> list byte.
(** [base64.RawStdEncoding.EncodeToString] *)
Variable base64EncodeToString : list byte -> string.

Record PasswordHasher : Type := mkHasher { cost : Z }.

Definition PasswordHasher_Hash (h : PasswordHasher) (password : string)
    : result PwError string :=
  if String.eqb password "" then Err ErrPasswordEmpty
  else
    match bcryptGenerateFromPassword password (cost h) with
    | None => Err ErrHashingFailed
    | Some hash => Ok hash
    end.

Record PasswordConfig : Type := mkPasswordConfig {
  cfgTime : Z;
  cfgMemory : Z;
  cfgThreads : Z;
  cfgKeyLen : Z;
  cfgSaltLen : Z
}.

Definition DefaultPasswordConfig : PasswordConfig :=
  {| cfgTime := 1; cfgMemory := 64 * 1024; cfgThreads := 4; cfgKeyLen := 32; cfgSaltLen := 16 |}.

(** [authService.HashPassword]; [salt] is the outcome of [rand.Read] on
    the salt buffer, [None] when it fails. *)
Definition authService_HashPassword (passwordConfig : PasswordConfig)
    (salt : option (list byte)) (password : string) : result PwError string :=
  match salt with
  | None => Err ErrRandRead
  | Some salt =>
      let hash :=
        argon2IDKey password salt (cfgTime passwordConfig) (cfgMemory passwordConfig)
                    (cfgThreads passwordConfig) (cfgKeyLen passwordConfig) in
      Ok (base64EncodeToString salt ++ "$" ++ base64EncodeToString hash)
  end.

End Hashers.

(** ** A reference implementation of the token library

    A small self-delimiting codec that satisfies the laws of [JwtLibrary].
    A token is ["h." ++ claims ++ "." ++ key]: the claims are written field
    by field in letters and binary digits, and the signature segment is the
    key itself.  It shows the laws consistent and gives the statements
    below concrete instances to run on. *)

Definition bitChar (b : bool) : ascii := if b then "1"%char else "0"%char.
Definition charBit (c : ascii) : bool := Ascii.eqb c "1".

Fixpoint putPos (p : positive) (k : string) : string :=
  match p with
  | xI q => String "I" (putPos q k)
  | xO q => String "O" (putPos q k)
  | xH => String "H" k
  end.

Fixpoint getPos (s : string) : option (positive * string) :=
  match s with
  | EmptyString => None
  | String c r =>
      if Ascii.eqb c "H" then Some (xH, r)
      else if Ascii.eqb c "I" then
        match getPos r with Some (p, r') => Some (xI p, r') | None => None end
      else if Ascii.eqb c "O" then
        match getPos r with Some (p, r') => Some (xO p, r') | None => None end
      else None
  end.

Definition putN (n : N) (k : string) : string :=
  match n with
  | N0 => String "Z" k
  | Npos p => String "P" (putPos p k)
  end.

Definition getN (s : string) : option (N * string) :=
  match s with
  | EmptyString => None
  | String c r =>
      if Ascii.eqb c "Z" then Some (N0, r)
      else if Ascii.eqb c "P" then
        match getPos r with Some (p, r') => Some (Npos p, r') | None => None end
      else None
  end.

Definition putDate (d : option Z) (k : string) : string :=
  match d with
  | None => String "N" k
  | Some Z0 => String "z" k
  | Some (Zpos p) => String "p" (putPos p k)
  | Some (Zneg p) => String "n" (putPos p k)
  end.

Definition getDate (s : string) : option (option Z * string) :=
  match s with
  | EmptyString => None
  | String c r =>
      if Ascii.eqb c "N" then Some (None, r)
      else if Ascii.eqb c "z" then Some (Some Z0, r)
      else if Ascii.eqb c "p" then
        match getPos r with Some (p, r') => Some (Some (Zpos p), r') | None => None end
      else if Ascii.eqb c "n" then
        match getPos r with Some (p, r') => Some (Some (Zneg p), r') | None => None end
      else None
  end.

Fixpoint putStr (s : string) (k : string) : string :=
  match s with
  | EmptyString => String "E" k
  | String (Ascii b0 b1 b2 b3 b4 b5 b6 b7) r =>
      String "C" (String (bitChar b0) (String (bitChar b1) (String (bitChar b2)
        (String (bitChar b3) (String (bitChar b4) (String (bitChar b5)
          (String (bitChar b6) (String (bitChar b7) (putStr r k)))))))))
  end.

Fixpoint getStr (s : string) : option (string * string) :=
  match s with
  | String t (String c0 (String c1 (String c2 (String c3 (String c4 (String c5
      (String c6 (String c7 r)))))))) =>
      if Ascii.eqb t "C" then
        match getStr r with
        | Some (x, r') =>
            Some (String (Ascii (charBit c0) (charBit c1) (charBit c2) (charBit c3)
                                (charBit c4) (charBit c5) (charBit c6) (charBit c7)) x, r')
        | None => None
        end
      else if Ascii.eqb t "E" then
        Some (EmptyString,
              String c0 (String c1 (String c2 (String c3 (String c4 (String c5
                (String c6 (String c7 r))))))))
      else None
  | String t r => if Ascii.eqb t "E" then Some (EmptyString, r) else None
  | EmptyString => None
  end.

Definition putClaims (c : JWTClaims) (k : string) : string :=
  putN (UserID c) (putStr (JTI c) (putDate (ExpiresAt c) (putDate (IssuedAt c)
    (putDate (NotBefore c) (putStr (Issuer c) (putStr (Subject c) k)))))).

Definition getClaims (s : string) : option (JWTClaims * string) :=
  '(u, s) ← getN s;
  '(j, s) ← getStr s;
  '(e, s) ← getDate s;
  '(i, s) ← getDate s;
  '(n, s) ← getDate s;
  '(iss, s) ← getStr s;
  '(sub, s) ← getStr s;
  Some ({| UserID := u; JTI := j; ExpiresAt := e; IssuedAt := i; NotBefore := n;
           Issuer := iss; Subject := sub |}, s).

(** The payload of a token and what follows it. *)
Definition refPayload (t : string) : option (JWTClaims * string) :=
  match t with
  | String h (String d r) =>
      if Ascii.eqb h "h" && Ascii.eqb d "." then
        match getClaims r with
        | Some (c, String d' sig) => if Ascii.eqb d' "." then Some (c, sig) else None
        | _ => None
        end
      else None
  | _ => None
  end.

Definition refSignedString (key : string) (c : JWTClaims) : result jwtError string :=
  Ok (String "h" (String "." (putClaims c (String "." (putStr key EmptyString))))).

Definition refParseUnverified (t : string) : result jwtError JWTClaims :=
  match refPayload t with
  | Some (c, _) => Ok c
  | None => Err ErrTokenMalformed
  end.

Definition refParseWithClaims (key : string) (now : Z) (t : string)
    : result jwtError JWTClaims :=
  match refPayload t with
  | Some (c, sig) =>
      match getStr sig with
      | Some (k, EmptyString) =>
          if String.eqb k key then validateClaims now c else Err ErrTokenSignatureInvalid
      | _ => Err ErrTokenSignatureInvalid
      end
  | None => Err ErrTokenMalformed
  end.

(** ** Sample runs of the token service *)

Definition tokenOf {E} (r : result E string) : string :=
  match r with Ok t => t | Err _ => "" end.

(** A configuration that lets a token be refreshed during its whole
    lifetime, twice. *)
Definition hourlyConfig : JWTConfig :=
  {| SecretKey := "secret";
     DefaultExpiration := hour;
     RefreshExpiration := hour;
     cfgIssuer := "aigo_service_auth";
     AllowRefresh := true;
     MaxRefreshCount := 2 |}.

Section SampleRuns.
Context `{JwtLibrary}.

(** A token for identity 7 issued at time 0 for an hour. *)
Definition issued : result Error string * jwtService :=
  GenerateTokenWithExpiration (NewJWTService (Some hourlyConfig)) 0 [x00] 7 hour.
Definition issuedToken : string := tokenOf (fst issued).


(** ... or revoked one second later and refreshed after that. *)
Definition revoked : result Error unit * jwtService :=
  RevokeToken (snd issued) second issuedToken.
Definition refreshedWhenRevoked : result Error string * jwtService :=
  RefreshToken (snd revoked) (clockAt (2 * second)) [x01] issuedToken.

(** Calls that follow the revocation, two cleanups among them. *)
Definition laterCalls : list Call :=
  [ CallCleanup (2 * second);
    CallGenerate (3 * second) [x02] 8 hour;
    CallRefresh (clockAt (4 * second)) [x03] issuedToken;
    CallRevokeAll (5 * second) 8;
    CallCleanup (6 * second) ].

(** Three refreshes of the lineage of [issuedToken], a second apart. *)
Definition threeRefreshes : list (refreshClock * list byte) :=
  [ (clockAt second, [x01]); (clockAt (2 * second), [x02]); (clockAt (3 * second), [x03]) ].

(** A token issued at 1.5 s for one millisecond. *)
Definition shortLived : result Error string * jwtService :=
  GenerateTokenWithExpiration (NewJWTService None) (1500 * millisecond) [x00] 1 millisecond.

(** A string that is no token, revoked on a new service. *)
Definition garbageRevoked : result Error unit * jwtService :=
  RevokeToken (NewJWTService None) 0 "garbage".

End SampleRuns.

(** ** Sample inputs of the password components *)

(** Valid options that ask for two classes in a one-character password. *)
Definition twoClassesOneChar : GenerateOptions :=
  {| Length := 1;
     IncludeLower := true;
     IncludeUpper := true;
     IncludeNumbers := false;
     IncludeSymbols := false;
     ExcludeAmbiguous := false;
     CustomCharset := "" |}.

(** A random source whose every read succeeds with zero bytes. *)
Definition zeroSource : Rand := fun _ => Some (x00, x00, x00, x00).

(** What [ChangePassword] does to the history of identity 1 over four
    password changes with a retention count of 2, from the third on. *)
Definition fourChanges : list HistoryCall :=
  [ HAdd 1 1 "h1"; HAdd 2 1 "h2"; HAdd 3 1 "h3"; HCleanup 1 2;
    HAdd 4 1 "h4"; HCleanup 1 2 ].

Definition dictionaryChecker : PasswordStrengthChecker :=
  {| enableDictionaryCheck := true |}.

(** ** Further operations of the token service ([jwt.go]) *)

(** The errors [GetTokenRemainingTime] adds to those of [ParseToken]. *)
Inductive RemainingError : Type :=
| ErrTokenHasExpired               (* Token已过期 *)
| ErrNoExpiration                  (* Token没有过期时间 *)
| ErrRemainingParse (e : Error).

(** [strings.Contains(err.Error(), "expired")] on an error of
    [ParseToken]: of the messages involved only the library's
    "token is expired" contains the word. *)
Definition mentionsExpired (e : Error) : bool :=
  match e with
  | ErrParseFailed ErrTokenExpired => true
  | _ => false
  end.

Section RemainingTime.
Context `{JwtLibrary}.

(** [GetTokenRemainingTime]; [nowParse] is the clock reading of the
    validator inside [ParseToken], [nowUntil] that of [time.Until]. *)
Definition GetTokenRemainingTime (s : jwtService) (nowParse nowUntil : Z)
    (tokenString : string) : result RemainingError Z :=
  match ParseToken s nowParse tokenString with
  | Err e => if mentionsExpired e then Err ErrTokenHasExpired else Err (ErrRemainingParse e)
  | Ok claims =>
      match ExpiresAt claims with
      | None => Err ErrNoExpiration
      | Some e =>
          let remaining := (dateTime e - nowUntil)%Z in
          if (remaining <=? 0)%Z then Err ErrTokenHasExpired else Ok remaining
      end
  end.

End RemainingTime.

(** The two indices agree: a token listed for an identity is mapped back
    to that identity, and it parses to claims of that identity. *)
Definition indexConsistent `{JwtLibrary} (s : jwtService) : Prop :=
  forall userID tokens tokenString,
    userTokens s !! userID = Some tokens ->
    tokenString ∈ tokens ->
    tokenUsers s !! tokenString = Some userID ∧
    exists claims, ParseUnverified tokenString = Ok claims ∧ UserID claims = userID.

(** ** The [TokenService] interface and its use by [authService] *)

(** The methods of the interface [TokenService] that [authService] calls,
    over the state of an implementation. *)
Class TokenService (S : Type) : Type := {
  ts_GenerateToken : S -> Z -> list byte -> N -> result Error string * S;
  ts_ValidateToken : S -> Z -> string -> result Error N;
  ts_RevokeToken : S -> Z -> string -> result Error unit * S
}.

(** [jwtService] has all the methods of the interface. *)
#[export] Instance jwtService_TokenService `{JwtLibrary} : TokenService jwtService :=
  {| ts_GenerateToken := GenerateToken;
     ts_ValidateToken := ValidateToken;
     ts_RevokeToken := RevokeToken |}.

(** [authService.RefreshToken]: the clock readings are those of the three
    calls; the error of [RevokeToken] is dropped. *)
Definition authService_RefreshToken {S} `{TokenService S} (s : S)
    (nowValidate nowGenerate nowRevoke : Z) (rnd : list byte) (token : string)
    : result Error string * S :=
  match ts_ValidateToken s nowValidate token with
  | Err e => (Err e, s)
  | Ok userID =>
      match ts_GenerateToken s nowGenerate rnd userID with
      | (Err e, s1) => (Err e, s1)
      | (Ok newToken, s1) => (Ok newToken, snd (ts_RevokeToken s1 nowRevoke token))
      end
  end.

(** [authService.Logout] *)
Definition authService_Logout {S} `{TokenService S} (s : S) (now : Z) (token : string)
    : result Error unit * S :=
  ts_RevokeToken s now token.

(** ** PasswordPolicyValidator *)

Record PasswordPolicy : Type := mkPolicy {
  MinLength : Z;
  MaxLength : Z;
  RequireLower : bool;
  RequireUpper : bool;
  RequireNumbers : bool;
  RequireSymbols : bool;
  MinUniqueChars : Z;
  ForbiddenPatterns : list string;
  MaxRepeatedChars : Z
}.

(** The violation messages of [ValidatePolicy], with the value each one
    prints. *)
Inductive Violation : Type :=
| TooShort (minLength : Z)
| TooLong (maxLength : Z)
| MissingLower
| MissingUpper
| MissingNumbers
| MissingSymbols
| TooFewUnique (minUnique : Z)
| TooManyRepeated (maxRepeated : Z)
| ForbiddenPattern (pattern : string).

Record PolicyResult : Type := mkPolicyResult {
  Valid : bool;
  Violations : list Violation;
  PolicyScore : Z
}.

(** The loop of [getMaxRepeatedChars] from index [i] on: [prev] is
    [password[i-1]]. *)
Fixpoint maxRepeatedFrom (prev : ascii) (currentRepeated maxRepeated : Z) (rest : string) : Z :=
  match rest with
  | EmptyString => maxRepeated
  | String c r =>
      if Ascii.eqb c prev then
        let currentRepeated := (currentRepeated + 1)%Z in
        maxRepeatedFrom c currentRepeated
          (if (maxRepeated <? currentRepeated)%Z then currentRepeated else maxRepeated) r
      else maxRepeatedFrom c 1 maxRepeated r
  end.

Definition getMaxRepeatedChars (password : string) : Z :=
  match password with
  | EmptyString => 0
  | String c r => maxRepeatedFrom c 1 1 r
  end.

(** One [if ... { violations = append(violations, v); score -= d }] step. *)
Definition violate (cond : bool) (v : Violation) (d : Z) (acc : list Violation * Z)
    : list Violation * Z :=
  if cond then ((fst acc ++ [v])%list, (snd acc - d)%Z) else acc.

Definition ValidatePolicy (password : string) (policy : PasswordPolicy) : PolicyResult :=
  let length := len password in
  let acc := (@nil Violation, 100%Z) in
  let acc := violate (length <? MinLength policy)%Z (TooShort (MinLength policy)) 20 acc in
  let acc :=
    violate ((0 <? MaxLength policy)%Z && (MaxLength policy <? length)%Z)
            (TooLong (MaxLength policy)) 10 acc in
  let acc :=
    violate (RequireLower policy && negb (ContainsAny password LowerChars)) MissingLower 15 acc in
  let acc :=
    violate (RequireUpper policy && negb (ContainsAny password UpperChars)) MissingUpper 15 acc in
  let acc :=
    violate (RequireNumbers policy && negb (ContainsAny password NumberChars))
            MissingNumbers 15 acc in
  let acc :=
    violate (RequireSymbols policy && negb (ContainsAny password SymbolChars))
            MissingSymbols 15 acc in
  let acc :=
    violate ((0 <? MinUniqueChars policy)%Z &&
             (countUniqueChars password <? MinUniqueChars policy)%Z)
            (TooFewUnique (MinUniqueChars policy)) 10 acc in
  let acc :=
    violate ((0 <? MaxRepeatedChars policy)%Z &&
             (MaxRepeatedChars policy <? getMaxRepeatedChars password)%Z)
            (TooManyRepeated (MaxRepeatedChars policy)) 15 acc in
  let acc :=
    foldl (fun acc pattern =>
             violate (Contains (ToLower password) (ToLower pattern))
                     (ForbiddenPattern pattern) 20 acc)
          acc (ForbiddenPatterns policy) in
  let score := if (snd acc <? 0)%Z then 0%Z else snd acc in
  {| Valid := match fst acc with [] => true | _ => false end;
     Violations := fst acc;
     PolicyScore := score |}.

(** ** passwordManager *)

(** [IsPasswordStrong], on the checker and the threshold of the
    configuration. *)
Definition IsPasswordStrong (c : PasswordStrengthChecker) (MinStrengthScore : Z)
    (password : string) : bool :=
  (MinStrengthScore <=? Score (CheckStrength c password))%Z.

(** The threshold of [DefaultPasswordManagerConfig]. *)
Definition DefaultMinStrengthScore : Z := 60.

(** ** PasswordHasher: cost *)

(** The constants of golang.org/x/crypto/bcrypt. *)
Definition bcryptMinCost : Z := 4.
Definition bcryptMaxCost : Z := 31.
Definition bcryptDefaultCost : Z := 10.

Definition NewPasswordHasher (c : Z) : PasswordHasher :=
  if ((c <? bcryptMinCost) || (bcryptMaxCost <? c))%Z
  then {| cost := bcryptDefaultCost |}
  else {| cost := c |}.

Definition SetCost (h : PasswordHasher) (c : Z) : PasswordHasher :=
  if ((bcryptMinCost <=? c) && (c <=? bcryptMaxCost))%Z then {| cost := c |} else h.

Definition GetCost (h : PasswordHasher) : Z := cost h.

(** ** Verification and history check *)

Section Verification.
(** [bcrypt.CompareHashAndPassword(hash, password) == nil] *)
Variable bcryptCompare : string -> string -> bool.

Definition PasswordHasher_Verify (password hash : string) : bool :=
  if String.eqb password "" || String.eqb hash "" then false
  else bcryptCompare hash password.

(** [PasswordHistoryManager.CheckHistory] over the memory storage. *)
Definition CheckHistory (s : MemoryHistoryStorage) (userID : N) (password : string)
    : result PwError bool :=
  if String.eqb password "" then Err ErrPasswordEmpty
  else
    match Storage_GetHistory s userID 0 with
    | Err e => Err e
    | Ok hs => Ok (existsb (fun history => PasswordHasher_Verify password (PasswordHash history)) hs)
    end.

End Verification.

(** ** authService.VerifyPassword *)

Inductive VerifyError : Type :=
| ErrInvalidHashFormat         (* invalid hash format *)
| ErrBase64.                   (* the error of a failed base64 decoding *)

(** The parts before and after the first ['$'], [None] without one. *)
Fixpoint splitAtSeparator (s : string) : option (string * string) :=
  match s with
  | EmptyString => None
  | String c r =>
      if Ascii.eqb c "$" then Some (EmptyString, r)
      else
        match splitAtSeparator r with
        | Some (a, b) => Some (String c a, b)
        | None => None
        end
  end.

(** [subtle.ConstantTimeCompare(x, y) == 1]: equal lengths and bytes. *)
Fixpoint ConstantTimeCompare (x y : list byte) : bool :=
  match x, y with
  | [], [] => true
  | a :: x', b :: y' => Byte.eqb a b && ConstantTimeCompare x' y'
  | _, _ => false
  end.

Section VerifyPassword.
Variable argon2IDKey : string -> list byte -> Z -> Z -> Z -> Z -> list byte.
(** [base64.RawStdEncoding.DecodeString]: [None] is an error. *)
Variable base64DecodeString : string -> option (list byte).

Definition authService_VerifyPassword (passwordConfig : PasswordConfig)
    (password hashedPassword : string) : result VerifyError bool :=
  match splitAtSeparator hashedPassword with
  | None => Err ErrInvalidHashFormat
  | Some (saltPart, hashPart) =>
      match base64DecodeString saltPart with
      | None => Err ErrBase64
      | Some salt =>
          match base64DecodeString hashPart with
          | None => Err ErrBase64
          | Some hash =>
              let computedHash :=
                argon2IDKey password salt (cfgTime passwordConfig) (cfgMemory passwordConfig)
                            (cfgThreads passwordConfig) (cfgKeyLen passwordConfig) in
              Ok (ConstantTimeCompare hash computedHash)
          end
      end
  end.

End VerifyPassword.

(** A string without the separator ['$']. *)
Fixpoint separatorFree (s : string) : bool :=
  match s with
  | EmptyString => true
  | String c r => negb (Ascii.eqb c "$") && separatorFree r
  end.

(** ** Sample encodings and key derivation

    A byte encoding (two hexadecimal digits per byte) with its decoder, and
    a stand-in key derivation, to run the hashing statements on. *)

Definition hexValue (c : ascii) : option N :=
  let n := N_of_ascii c in
  if ((48 <=? n) && (n <=? 57))%N then Some (n - 48)%N
  else if ((97 <=? n) && (n <=? 102))%N then Some (n - 87)%N
  else None.

Fixpoint hexDecodeString (s : string) : option (list byte) :=
  match s with
  | EmptyString => Some []
  | String a (String b r) =>
      match hexValue a, hexValue b, hexDecodeString r with
      | Some h, Some l, Some bs =>
          match Byte.of_N (16 * h + l) with
          | Some x => Some (x :: bs)
          | None => None
          end
      | _, _, _ => None
      end
  | String _ EmptyString => None
  end.

Definition sampleKey (password : string) (salt : list byte) (_ _ _ _ : Z) : list byte :=
  (salt ++ map byte_of_ascii (list_ascii_of_string password))%list.

(** Every character of [s] is one of [chars]. *)
Fixpoint allFrom (chars s : string) : bool :=
  match s with
  | EmptyString => true
  | String c r => ContainsRune chars c && allFrom chars r
  end.

(** Options with all four classes and four characters, and a random
    source whose first four reads pick one character of each class. *)
Definition fourClasses : GenerateOptions :=
  {| Length := 4;
     IncludeLower := true;
     IncludeUpper := true;
     IncludeNumbers := true;
     IncludeSymbols := true;
     ExcludeAmbiguous := true;
     CustomCharset := "" |}.

Definition pickingSource : Rand :=
  fun n => Some (x00, x00, x00,
                 match n with 0 => x00 | 1 => x1a | 2 => x32 | _ => x3c end).

Definition customOptions : GenerateOptions :=
  {| Length := 6;
     IncludeLower := false;
     IncludeUpper := false;
     IncludeNumbers := false;
     IncludeSymbols := false;
     ExcludeAmbiguous := false;
     CustomCharset := "xyz" |}.

Definition defaultPolicy : PasswordPolicy :=
  {| MinLength := 8;
     MaxLength := 128;
     RequireLower := true;
     RequireUpper := true;
     RequireNumbers := true;
     RequireSymbols := false;
     MinUniqueChars := 6;
     ForbiddenPatterns := ["password"; "123456"; "qwerty"; "admin"];
     MaxRepeatedChars := 3 |}.

(** The running pair of [ValidatePolicy]: the score is 100 less the
    deductions, and it is 100 exactly when no violation was recorded. *)
Definition policyInv (acc : list Violation * Z) : Prop :=
  (snd acc <= 100)%Z ∧ (fst acc = [] <-> snd acc = 100%Z).

(** A call that adds to the history. *)
Definition isAdd (c : HistoryCall) : bool :=
  match c with HAdd _ _ _ => true | HCleanup _ _ => false end.

(** * Properties *)

(** ** The reference library satisfies the laws *)

Lemma getPos_putPos p k : getPos (putPos p k) = Some (p, k).
Proof. induction p as [q IH | q IH |]; simpl; [rewrite IH | rewrite IH |]; reflexivity. Qed.

Lemma getN_putN n k : getN (putN n k) = Some (n, k).
Proof. destruct n as [| p]; simpl; [| rewrite getPos_putPos]; reflexivity. Qed.

Lemma getDate_putDate d k : getDate (putDate d k) = Some (d, k).
Proof.
  destruct d as [[| p | p] |]; simpl; try rewrite getPos_putPos; reflexivity.
Qed.

Lemma charBit_bitChar b : charBit (bitChar b) = b.
Proof. destruct b; reflexivity. Qed.

Lemma getStr_putStr s k : getStr (putStr s k) = Some (s, k).
Proof.
  induction s as [| [b0 b1 b2 b3 b4 b5 b6 b7] r IH].
  - destruct k as [| c0 [| c1 [| c2 [| c3 [| c4 [| c5 [| c6 [| c7 k]]]]]]]]; reflexivity.
  - cbn [putStr getStr]. rewrite IH. cbn. rewrite !charBit_bitChar. reflexivity.
Qed.

Lemma getClaims_putClaims c k : getClaims (putClaims c k) = Some (c, k).
Proof.
  unfold getClaims, putClaims.
  rewrite getN_putN; cbn [mbind option_bind].
  rewrite getStr_putStr; cbn [mbind option_bind].
  rewrite !getDate_putDate; cbn [mbind option_bind].
  rewrite getDate_putDate; cbn [mbind option_bind].
  rewrite getDate_putDate; cbn [mbind option_bind].
  rewrite !getStr_putStr; cbn [mbind option_bind].
  rewrite getStr_putStr; cbn [mbind option_bind].
  destruct c; reflexivity.
Qed.

Lemma refPayload_signed key c :
  refPayload (String "h" (String "." (putClaims c (String "." (putStr key EmptyString)))))
  = Some (c, putStr key EmptyString).
Proof. cbn [refPayload]. rewrite getClaims_putClaims. reflexivity. Qed.

Lemma refPayload_dotless t : dotless t = true -> refPayload t = None.
Proof.
  destruct t as [| h [| d r]]; try reflexivity.
  cbn [dotless refPayload]. destruct (Ascii.eqb h "."); [discriminate |].
  destruct (Ascii.eqb d "."); [discriminate |].
  rewrite andb_false_r. reflexivity.
Qed.

#[export] Instance refJwt : JwtLibrary.
Proof.
  refine {| SignedString := refSignedString;
            ParseWithClaims := refParseWithClaims;
            ParseUnverified := refParseUnverified |}.
  - reflexivity.
  - intros key c t now [= <-]. unfold refParseWithClaims.
    rewrite refPayload_signed, getStr_putStr, String.eqb_refl. reflexivity.
  - intros key c t [= <-]. unfold refParseUnverified.
    rewrite refPayload_signed. reflexivity.
  - intros key now t c. unfold refParseWithClaims, refParseUnverified.
    destruct (refPayload t) as [[c' sig] |]; [| discriminate].
    destruct (getStr sig) as [[k [| ? ?]] |]; try discriminate.
    destruct (String.eqb k key); [| discriminate].
    unfold validateClaims.
    destruct (ExpiresAt c'), (NotBefore c');
      repeat match goal with |- context [if ?b then _ else _] => destruct b end;
      congruence.
  - intros key now t Hd. unfold refParseWithClaims.
    rewrite refPayload_dotless by assumption. reflexivity.
  - intros t Hd. unfold refParseUnverified.
    rewrite refPayload_dotless by assumption. reflexivity.
Defined.

(** ** The token service *)

Section TokenServiceFacts.
Context `{JwtLibrary}.

Lemma numericDate_le t : (dateTime (NewNumericDate t) <= t)%Z.
Proof.
  unfold dateTime, NewNumericDate.
  pose proof (Z.mul_div_le t second ltac:(reflexivity)). lia.
Qed.

Lemma numericDate_gt t : (t - second < dateTime (NewNumericDate t))%Z.
Proof.
  unfold dateTime, NewNumericDate.
  pose proof (Z.mul_succ_div_gt t second ltac:(reflexivity)). lia.
Qed.

Lemma signed_nonempty key c t : SignedString key c = Ok t -> String.eqb t "" = false.
Proof.
  intros Hs. destruct t as [| a r]; [| reflexivity].
  apply unverified_signed in Hs.
  rewrite (unverified_dotless "") in Hs by reflexivity. discriminate.
Qed.

Lemma signed_injective key c1 c2 t : SignedString key c1 = Ok t -> SignedString key c2 = Ok t -> c1 = c2.
Proof.
  intros H1 H2. apply unverified_signed in H1, H2. congruence.
Qed.

(** Claims built at [now] for [expiration] pass validation from [now] up
    to the truncated expiry. *)
Lemma validate_fresh_claims cfg now rnd userID expiration now' :
  (now <= now')%Z ->
  (now' < dateTime (NewNumericDate (now + expiration)))%Z ->
  validateClaims now' (claimsFor cfg now rnd userID expiration)
  = Ok (claimsFor cfg now rnd userID expiration).
Proof.
  intros Hle Hlt. unfold validateClaims, claimsFor, Before; cbn [ExpiresAt NotBefore].
  pose proof (numericDate_le now).
  destruct (Z.ltb_spec now' (dateTime (NewNumericDate (now + expiration)))); [| lia].
  destruct (Z.ltb_spec now' (dateTime (NewNumericDate now))); [lia | reflexivity].
Qed.

(** Claims whose truncated expiry is not after the clock are expired. *)
Lemma validate_expired_claims cfg now rnd userID expiration now' :
  (dateTime (NewNumericDate (now + expiration)) <= now')%Z ->
  validateClaims now' (claimsFor cfg now rnd userID expiration) = Err ErrTokenExpired.
Proof.
  intros Hle. unfold validateClaims, claimsFor, Before; cbn [ExpiresAt NotBefore].
  destruct (Z.ltb_spec now' (dateTime (NewNumericDate (now + expiration)))); [lia | reflexivity].
Qed.

Lemma Generate_inv s now rnd userID expiration t s' :
  GenerateTokenWithExpiration s now rnd userID expiration = (Ok t, s') ->
  userID ≠ 0%N ∧ (0 < expiration)%Z ∧
  SignedString (secretKey s) (claimsFor (config s) now rnd userID expiration) = Ok t ∧
  config s' = config s ∧ secretKey s' = secretKey s ∧
  revokedTokens s' = revokedTokens s ∧ refreshCounts s' = refreshCounts s.
Proof.
  unfold GenerateTokenWithExpiration.
  destruct (N.eqb_spec userID 0); [discriminate |].
  destruct (Z.leb_spec expiration 0); [discriminate |].
  destruct (SignedString _ _) as [tok | e] eqn:Hs; [| discriminate].
  intros [= <- <-]. cbn. repeat split; (assumption || reflexivity).
Qed.

Lemma Generate_state s now rnd userID expiration :
  let s' := snd (GenerateTokenWithExpiration s now rnd userID expiration) in
  config s' = config s ∧ secretKey s' = secretKey s ∧
  revokedTokens s' = revokedTokens s ∧ refreshCounts s' = refreshCounts s.
Proof.
  unfold GenerateTokenWithExpiration.
  destruct (userID =? 0)%N; [cbn; auto |].
  destruct (expiration <=? 0)%Z; [cbn; auto |].
  destruct (SignedString _ _); cbn; auto.
Qed.

Lemma Generate_succeeds s now rnd userID expiration :
  userID ≠ 0%N -> (0 < expiration)%Z ->
  exists t, GenerateTokenWithExpiration s now rnd userID expiration
            = (Ok t, snd (GenerateTokenWithExpiration s now rnd userID expiration))
            ∧ SignedString (secretKey s) (claimsFor (config s) now rnd userID expiration) = Ok t.
Proof.
  intros Hu Hexp. unfold GenerateTokenWithExpiration.
  destruct (N.eqb_spec userID 0); [contradiction |].
  destruct (Z.leb_spec expiration 0); [lia |].
  pose proof (sign_succeeds (secretKey s) (claimsFor (config s) now rnd userID expiration)) as Hok.
  destruct (SignedString _ _) as [tok | e]; [| discriminate].
  exists tok. split; reflexivity.
Qed.

Lemma Revoke_inv s now t r s' :
  RevokeToken s now t = (r, s') ->
  String.eqb t "" = false ->
  r = Ok tt ∧ config s' = config s ∧ secretKey s' = secretKey s ∧
  revokedTokens s' = <[t := now]> (revokedTokens s) ∧
  refreshCounts s' = delete t (refreshCounts s).
Proof.
  unfold RevokeToken. intros Hr Hne. rewrite Hne in Hr.
  destruct (tokenUsers s !! t) as [u |]; [destruct (userTokens s !! u) |];
    injection Hr as <- <-; cbn; auto.
Qed.

Lemma Revoke_ok_nonempty s now t s' :
  RevokeToken s now t = (Ok tt, s') -> String.eqb t "" = false.
Proof.
  unfold RevokeToken. destruct (String.eqb t ""); [discriminate | reflexivity].
Qed.

Lemma Revoke_state s now t :
  let s' := snd (RevokeToken s now t) in
  config s' = config s ∧ secretKey s' = secretKey s ∧
  forall k, is_Some (revokedTokens s !! k) -> is_Some (revokedTokens s' !! k).
Proof.
  cbn zeta. destruct (String.eqb t "") eqn:He.
  - unfold RevokeToken. rewrite He. cbn. auto.
  - destruct (RevokeToken s now t) as [r s'] eqn:Hr.
    destruct (Revoke_inv _ _ _ _ _ Hr He) as (_ & Hc & Hk & Hrev & _).
    cbn. repeat split; try assumption.
    intros k Hk'. rewrite Hrev. rewrite lookup_insert_is_Some.
    destruct (decide (t = k)); auto.
Qed.

Lemma lookup_foldr_delete (m : gmap string Z) (l : list string) (k : string) :
  foldr delete m l !! k = if decide (k ∈ l) then None else m !! k.
Proof.
  induction l as [| a l IH]; cbn [foldr].
  - rewrite decide_False by apply not_elem_of_nil. reflexivity.
  - destruct (decide (a = k)) as [-> | Hne].
    + rewrite lookup_delete_eq, decide_True by apply elem_of_cons, or_introl, eq_refl.
      reflexivity.
    + rewrite lookup_delete_ne by assumption. rewrite IH.
      destruct (decide (k ∈ l)) as [Hin | Hnin].
      * rewrite decide_True by (apply elem_of_cons; auto). reflexivity.
      * rewrite decide_False; [reflexivity |].
        intros [-> | Hin]%elem_of_cons; [apply Hne; reflexivity | auto].
Qed.

(** What [CleanupExpiredTokens] leaves of the revocation map. *)
Lemma lookup_cleanup s now t :
  revokedTokens (CleanupExpiredTokens s now) !! t
  = if cleanupSelects now t then None else revokedTokens s !! t.
Proof.
  unfold CleanupExpiredTokens; cbn [revokedTokens].
  rewrite lookup_foldr_delete.
  destruct (cleanupSelects now t) eqn:Hsel.
  - destruct (decide _) as [_ | Hnin]; [reflexivity |].
    destruct (revokedTokens s !! t) as [ts |] eqn:Hl; [| reflexivity].
    exfalso. apply Hnin. apply list_elem_of_filter. split; [assumption |].
    apply list_elem_of_fmap. exists (t, ts). split; [reflexivity |].
    apply elem_of_map_to_list. assumption.
  - destruct (decide _) as [Hin | _]; [| reflexivity].
    apply list_elem_of_filter in Hin as [Hp _]. congruence.
Qed.

Lemma foldl_insert_is_Some (m : gmap string Z) (l : list string) (v : Z) (k : string) :
  is_Some (m !! k) -> is_Some (foldl (fun m t => <[t := v]> m) m l !! k).
Proof.
  revert m. induction l as [| a l IH]; intros m Hk; cbn [foldl]; [assumption |].
  apply IH. rewrite lookup_insert_is_Some. destruct (decide (a = k)); auto.
Qed.

End TokenServiceFacts.

Section TokenServiceRuns.
Context `{JwtLibrary}.

Lemma Refresh_state s clk rnd t :
  let s' := snd (RefreshToken s clk rnd t) in
  config s' = config s ∧ secretKey s' = secretKey s ∧
  forall k, is_Some (revokedTokens s !! k) -> is_Some (revokedTokens s' !! k).
Proof.
  cbn zeta. unfold RefreshToken.
  destruct (negb (AllowRefresh (config s))); [cbn; auto |].
  destruct (String.eqb t ""); [cbn; auto |].
  destruct (ParseToken s (atParse clk) t) as [claims | e]; [| cbn; auto].
  destruct (MaxRefreshCount (config s) <=? _)%Z; [cbn; auto |].
  destruct (beforeRefreshDeadline _ _ _); [cbn; auto |].
  unfold GenerateToken.
  pose proof (Generate_state s (atIssue clk) rnd (UserID claims)
                (DefaultExpiration (config s))) as Hg. cbn zeta in Hg.
  destruct (GenerateTokenWithExpiration s (atIssue clk) rnd (UserID claims) _)
    as [[newToken | e] s1]; cbn [snd] in Hg;
    destruct Hg as (Hc & Hk & Hrev & _).
  - pose proof (Revoke_state (setRefreshCount s1 newToken
        (default 0%Z (refreshCounts s !! t) + 1)) (atRevoke clk) t) as Hr.
    cbn zeta in Hr.
    destruct (RevokeToken _ (atRevoke clk) t) as [[[] | e] s3]; cbn [snd] in *;
      destruct Hr as (Hc3 & Hk3 & Hrev3);
      unfold setRefreshCount, dropRefreshCount in *;
      cbn [config secretKey revokedTokens] in *;
      (split; [congruence | split; [congruence |]]);
      intros k Hin; apply Hrev3; rewrite Hrev; assumption.
  - cbn. repeat split; try assumption. intros k Hin. rewrite Hrev. assumption.
Qed.

Lemma RevokeAll_state s now userID :
  let s' := snd (RevokeAllUserTokens s now userID) in
  config s' = config s ∧ secretKey s' = secretKey s ∧
  forall k, is_Some (revokedTokens s !! k) -> is_Some (revokedTokens s' !! k).
Proof.
  cbn zeta. unfold RevokeAllUserTokens.
  destruct (userID =? 0)%N; [cbn; auto |].
  destruct (userTokens s !! userID) as [tokens |]; cbn; [| auto].
  repeat split. intros k Hin. apply foldl_insert_is_Some. assumption.
Qed.

(** No call other than a cleanup that selects it takes a token off the
    revocation map. *)
Lemma revoked_call s c t :
  is_Some (revokedTokens s !! t) ->
  cleanupSpares t c = true ->
  is_Some (revokedTokens (call s c) !! t).
Proof.
  intros Hin Hsp. destruct c as [now rnd u e | now tok | now | clk rnd tok | now u];
    cbn [call].
  - destruct (Generate_state s now rnd u e) as (_ & _ & -> & _). assumption.
  - apply Revoke_state. assumption.
  - rewrite lookup_cleanup. cbn [cleanupSpares] in Hsp.
    destruct (cleanupSelects now t); [discriminate | assumption].
  - apply Refresh_state. assumption.
  - apply RevokeAll_state. assumption.
Qed.

Lemma revoked_run cs : forall s t,
  is_Some (revokedTokens s !! t) ->
  forallb (cleanupSpares t) cs = true ->
  is_Some (revokedTokens (run s cs) !! t).
Proof.
  induction cs as [| c cs IH]; intros s t Hin Hall; cbn [run foldl]; [assumption |].
  cbn [forallb] in Hall. apply andb_prop in Hall as [Hc Hcs].
  apply IH; [| assumption]. apply revoked_call; assumption.
Qed.

Lemma Validate_revoked s now t :
  String.eqb t "" = false ->
  is_Some (revokedTokens s !! t) ->
  ValidateToken s now t = Err ErrTokenRevoked.
Proof.
  intros Hne [ts Hts]. unfold ValidateToken, IsTokenRevoked.
  rewrite Hne, Hts. reflexivity.
Qed.

(** A token issued with a lifetime that ends, after truncation to whole
    seconds, at or before the clock is rejected as expired. *)
Lemma Validate_expired_on_issue s now rnd u ttl t s' now' :
  GenerateTokenWithExpiration s now rnd u ttl = (Ok t, s') ->
  IsTokenRevoked s t = false ->
  (dateTime (NewNumericDate (now + ttl)) <= now')%Z ->
  ValidateToken s' now' t = Err (ErrParseFailed ErrTokenExpired).
Proof.
  intros Hg Hfresh Hexp.
  destruct (Generate_inv _ _ _ _ _ _ _ Hg) as (_ & _ & Hs & Hc & Hk & Hrev & _).
  unfold ValidateToken, IsTokenRevoked, ParseToken in *.
  rewrite (signed_nonempty _ _ _ Hs), Hrev.
  destruct (revokedTokens s !! t); [discriminate |].
  rewrite Hk, (parse_signed _ _ _ now' Hs), validate_expired_claims by assumption.
  reflexivity.
Qed.

(** C1 (as amended).  Token round trip: when
    [GenerateTokenWithExpiration(u, ttl)] succeeds for a nonzero identity
    and returns a token that is not already on the revocation map,
    [ValidateToken] accepts it and returns [u] at every clock reading from
    the moment of issue up to one second before [ttl] runs out; with a
    lifetime of a second or more this includes the moment of issue
    itself. *)
Theorem C1_token_round_trip s now rnd u ttl t s' now' :
  u ≠ 0%N ->
  GenerateTokenWithExpiration s now rnd u ttl = (Ok t, s') ->
  IsTokenRevoked s t = false ->
  (now <= now')%Z ->
  (now' + second <= now + ttl)%Z ->
  ValidateToken s' now' t = Ok u.
Proof.
  intros _ Hg Hfresh Hle Hlt.
  destruct (Generate_inv _ _ _ _ _ _ _ Hg) as (_ & _ & Hs & Hc & Hk & Hrev & _).
  unfold ValidateToken, IsTokenRevoked, ParseToken in *.
  rewrite (signed_nonempty _ _ _ Hs), Hrev.
  destruct (revokedTokens s !! t); [discriminate |].
  rewrite Hk, (parse_signed _ _ _ now' Hs).
  rewrite validate_fresh_claims; [reflexivity | assumption |].
  pose proof (numericDate_gt (now + ttl)). lia.
Qed.

(** C2 (as amended).  Revocation finality: once [RevokeToken(t)] has
    succeeded, [ValidateToken(t)] fails with the revoked error in every
    state reached by later calls of the service, as long as no
    [CleanupExpiredTokens] among them selected [t]; and a cleanup does not
    select a token that parses and whose expiry, if it has one, has not
    passed. *)
Theorem C2_revocation_finality s now t s1 :
  RevokeToken s now t = (Ok tt, s1) ->
  (forall cs now',
      forallb (cleanupSpares t) cs = true ->
      ValidateToken (run s1 cs) now' t = Err ErrTokenRevoked)
  ∧ (forall claims nowC,
      parseTokenUnsafe t = Ok claims ->
      (forall e, ExpiresAt claims = Some e -> (nowC <= dateTime e)%Z) ->
      cleanupSpares t (CallCleanup nowC) = true).
Proof.
  intros Hr. pose proof (Revoke_ok_nonempty _ _ _ _ Hr) as Hne.
  destruct (Revoke_inv _ _ _ _ _ Hr Hne) as (_ & _ & _ & Hrev & _).
  split.
  - intros cs now' Hall. apply Validate_revoked; [assumption |].
    apply revoked_run; [| assumption].
    rewrite Hrev, lookup_insert_eq. eauto.
  - intros claims nowC Hp Hexp. cbn [cleanupSpares]. unfold cleanupSelects.
    rewrite Hp. destruct (ExpiresAt claims) as [e |]; [| reflexivity].
    specialize (Hexp e eq_refl). unfold Before.
    destruct (Z.ltb_spec (dateTime e) nowC); [lia | reflexivity].
Qed.

(** C5 (as amended).  [CleanupExpiredTokens] removes the revocation record
    of a token string exactly when the string does not parse as a token or
    its expiry claim is before the current time; every other record, in
    particular that of a token that parses and has not expired or carries
    no expiry claim, is left as it was. *)
Theorem C5_cleanup_removes_exactly s now t :
  revokedTokens (CleanupExpiredTokens s now) !! t
  = if unparseable t || expiryPassed now t then None else revokedTokens s !! t.
Proof.
  rewrite lookup_cleanup. unfold cleanupSelects, unparseable, expiryPassed.
  destruct (parseTokenUnsafe t) as [claims | e]; cbn; [| reflexivity].
  destruct (ExpiresAt claims); reflexivity.
Qed.

End TokenServiceRuns.

Section RefreshFacts.
Context `{JwtLibrary}.

Lemma validateClaims_ok now c :
  is_ok (validateClaims now c) = true -> validateClaims now c = Ok c.
Proof.
  unfold validateClaims.
  destruct (ExpiresAt c), (NotBefore c);
    repeat match goal with |- context [if ?b then _ else _] => destruct b end;
    (reflexivity || discriminate).
Qed.

Lemma ParseToken_nonempty s now t c :
  ParseToken s now t = Ok c -> String.eqb t "" = false.
Proof. unfold ParseToken. destruct (String.eqb t ""); [discriminate | reflexivity]. Qed.

Lemma ParseToken_signed s now t c :
  SignedString (secretKey s) c = Ok t ->
  is_ok (validateClaims now c) = true ->
  ParseToken s now t = Ok c.
Proof.
  intros Hs Hv. unfold ParseToken.
  rewrite (signed_nonempty _ _ _ Hs), (parse_signed _ _ _ now Hs).
  rewrite (validateClaims_ok _ _ Hv). reflexivity.
Qed.

(** A successful [RefreshToken], taken apart. *)
Lemma Refresh_inv s clk rnd t newTok s' :
  RefreshToken s clk rnd t = (Ok newTok, s') ->
  exists cur,
    ParseToken s (atParse clk) t = Ok cur ∧
    SignedString (secretKey s)
      (claimsFor (config s) (atIssue clk) rnd (UserID cur) (DefaultExpiration (config s)))
    = Ok newTok ∧
    config s' = config s ∧ secretKey s' = secretKey s ∧
    revokedTokens s' = <[t := atRevoke clk]> (revokedTokens s) ∧
    refreshCounts s'
    = delete t (<[newTok := (default 0 (refreshCounts s !! t) + 1)%Z]> (refreshCounts s)).
Proof.
  unfold RefreshToken.
  destruct (negb (AllowRefresh (config s))); [discriminate |].
  destruct (String.eqb t "") eqn:Hne; [discriminate |].
  destruct (ParseToken s (atParse clk) t) as [cur | e]; [| discriminate].
  destruct (MaxRefreshCount (config s) <=? _)%Z; [discriminate |].
  destruct (beforeRefreshDeadline _ _ _); [discriminate |].
  unfold GenerateToken.
  destruct (GenerateTokenWithExpiration s (atIssue clk) rnd (UserID cur) _)
    as [[tok | e] s1] eqn:Hg; [| discriminate].
  destruct (Generate_inv _ _ _ _ _ _ _ Hg) as (_ & _ & Hs & Hc & Hk & Hrev & Hrc).
  destruct (RevokeToken _ (atRevoke clk) t) as [r s3] eqn:Hr.
  destruct (Revoke_inv _ _ _ _ _ Hr Hne) as (-> & Hc3 & Hk3 & Hrev3 & Hrc3).
  unfold setRefreshCount in *; cbn [config secretKey revokedTokens refreshCounts] in *.
  intros [= <- <-]. exists cur. rewrite Hc3, Hk3, Hrev3, Hrc3, Hc, Hk, Hrev, Hrc.
  repeat split; (assumption || reflexivity).
Qed.

(** A [RefreshToken] whose tests all pass succeeds. *)
Lemma Refresh_succeeds s clk rnd t cur :
  AllowRefresh (config s) = true ->
  ParseToken s (atParse clk) t = Ok cur ->
  (default 0 (refreshCounts s !! t) < MaxRefreshCount (config s))%Z ->
  beforeRefreshDeadline (config s) (atWindow clk) cur = false ->
  UserID cur ≠ 0%N ->
  (0 < DefaultExpiration (config s))%Z ->
  exists newTok s', RefreshToken s clk rnd t = (Ok newTok, s').
Proof.
  intros Ha Hp Hcount Hwin Hu Hd.
  destruct (Generate_succeeds s (atIssue clk) rnd (UserID cur)
              (DefaultExpiration (config s)) Hu Hd) as (tok & Hg & _).
  unfold RefreshToken. rewrite Ha, (ParseToken_nonempty _ _ _ _ Hp), Hp. cbn [negb].
  destruct (Z.leb_spec (MaxRefreshCount (config s)) (default 0%Z (refreshCounts s !! t)));
    [lia |].
  rewrite Hwin. unfold GenerateToken. rewrite Hg.
  destruct (RevokeToken _ (atRevoke clk) t) as [r s3] eqn:Hr.
  destruct (Revoke_inv _ _ _ _ _ Hr (ParseToken_nonempty _ _ _ _ Hp)) as (-> & _).
  eauto.
Qed.

(** A [RefreshToken] on a lineage that has used up its refreshes. *)
Lemma Refresh_at_limit s clk rnd t cur :
  AllowRefresh (config s) = true ->
  ParseToken s (atParse clk) t = Ok cur ->
  (MaxRefreshCount (config s) <= default 0 (refreshCounts s !! t))%Z ->
  RefreshToken s clk rnd t = (Err ErrRefreshLimit, s).
Proof.
  intros Ha Hp Hcount.
  unfold RefreshToken. rewrite Ha, (ParseToken_nonempty _ _ _ _ Hp), Hp. cbn [negb].
  destruct (Z.leb_spec (MaxRefreshCount (config s)) (default 0%Z (refreshCounts s !! t)));
    [reflexivity | lia].
Qed.

Lemma lineage_run calls : forall s t cur k,
  AllowRefresh (config s) = true ->
  (0 < DefaultExpiration (config s))%Z ->
  UserID cur ≠ 0%N ->
  SignedString (secretKey s) cur = Ok t ->
  default 0%Z (refreshCounts s !! t) = k ->
  (0 <= k <= MaxRefreshCount (config s))%Z ->
  List.length calls = S (Z.to_nat (MaxRefreshCount (config s) - k)) ->
  lineageOpen (config s) cur calls = true ->
  exists toks,
    List.length toks = Z.to_nat (MaxRefreshCount (config s) - k) ∧
    fst (refreshLineage s t calls) = (map Ok toks ++ [Err ErrRefreshLimit])%list.
Proof.
  induction calls as [| [clk rnd] rest IH]; intros s t cur k Ha Hd Hu Hs Hk Hrange Hlen Hopen;
    [discriminate |].
  cbn [lineageOpen] in Hopen.
  apply andb_prop in Hopen as [Hopen Hrest].
  apply andb_prop in Hopen as [Hopen Hjti].
  apply andb_prop in Hopen as [Hval Hwin].
  apply negb_true_iff in Hwin, Hjti.
  pose proof (ParseToken_signed s (atParse clk) t cur Hs Hval) as Hp.
  cbn [refreshLineage].
  destruct (Z.eq_dec k (MaxRefreshCount (config s))) as [Heq | Hlt].
  - rewrite (Refresh_at_limit s clk rnd t cur Ha Hp) by lia.
    replace (MaxRefreshCount (config s) - k)%Z with 0%Z in * by lia.
    destruct rest; [| discriminate]. exists []. split; reflexivity.
  - destruct (Refresh_succeeds s clk rnd t cur Ha Hp ltac:(lia) Hwin Hu Hd)
      as (newTok & s' & Hr).
    rewrite Hr.
    destruct (Refresh_inv _ _ _ _ _ _ Hr) as (cur' & Hp' & Hs' & Hc & Hkey & _ & Hrc).
    assert (cur' = cur) as -> by congruence.
    assert (newTok ≠ t) as Hne.
    { intros ->. pose proof (signed_injective _ _ _ _ Hs Hs') as Hcur.
      apply (f_equal JTI) in Hcur. cbn [JTI claimsFor] in Hcur.
      rewrite <- Hcur, String.eqb_refl in Hjti. discriminate. }
    destruct (IH s' newTok
                (claimsFor (config s) (atIssue clk) rnd (UserID cur)
                   (DefaultExpiration (config s))) (k + 1)%Z)
      as (toks & Hlen' & Hrun).
    + congruence.
    + rewrite Hc. assumption.
    + assumption.
    + rewrite Hkey. assumption.
    + rewrite Hrc, lookup_delete_ne, lookup_insert_eq by auto. cbn. lia.
    + rewrite Hc. lia.
    + rewrite Hc. cbn [List.length] in Hlen. lia.
    + rewrite Hc. assumption.
    + destruct (refreshLineage s' newTok rest) as [rs s2]. cbn [fst] in *.
      exists (newTok :: toks). rewrite Hc in Hlen'. split.
      * cbn [List.length]. lia.
      * rewrite Hrun. reflexivity.
Qed.

(** C3.  Refresh lineage cap: with refresh enabled, start from a token
    just generated for a nonzero identity (no refresh count is on record
    for it) and refresh the latest token of the lineage
    [MaxRefreshCount + 1] times, each call finding the refresh window open
    (the latest token validates at the time of the call, the window test
    passes, and the call draws an identifier other than the latest
    token's).  Then each of the first [MaxRefreshCount] calls succeeds and
    the last one fails with the refresh-limit error. *)
Theorem C3_refresh_lineage_cap s now rnd u ttl t0 s0 calls :
  AllowRefresh (config s) = true ->
  (0 <= MaxRefreshCount (config s))%Z ->
  (0 < DefaultExpiration (config s))%Z ->
  GenerateTokenWithExpiration s now rnd u ttl = (Ok t0, s0) ->
  refreshCounts s !! t0 = None ->
  List.length calls = S (Z.to_nat (MaxRefreshCount (config s))) ->
  lineageOpen (config s) (claimsFor (config s) now rnd u ttl) calls = true ->
  exists toks,
    List.length toks = Z.to_nat (MaxRefreshCount (config s)) ∧
    fst (refreshLineage s0 t0 calls) = (map Ok toks ++ [Err ErrRefreshLimit])%list.
Proof.
  intros Ha Hmax Hd Hg Hfresh Hlen Hopen.
  destruct (Generate_inv _ _ _ _ _ _ _ Hg) as (Hu & _ & Hs & Hc & Hk & _ & Hrc).
  destruct (lineage_run calls s0 t0 (claimsFor (config s) now rnd u ttl) 0%Z)
    as (toks & Hlen' & Hrun).
  - congruence.
  - rewrite Hc. assumption.
  - assumption.
  - rewrite Hk. assumption.
  - rewrite Hrc, Hfresh. reflexivity.
  - rewrite Hc. lia.
  - rewrite Hc, Z.sub_0_r. assumption.
  - rewrite Hc. assumption.
  - exists toks. rewrite Hc, Z.sub_0_r in Hlen'. split; assumption.
Qed.





End RefreshFacts.

(** ** The statements on the reference library *)

Lemma ok_eta {E S} (p : result E string * S) :
  is_ok (fst p) = true -> p = (Ok (tokenOf (fst p)), snd p).
Proof. destruct p as [[t | e] s]; [reflexivity | discriminate]. Qed.

Lemma ok_unit_eta {E S} (p : result E unit * S) :
  is_ok (fst p) = true -> p = (Ok tt, snd p).
Proof. destruct p as [[[] | e] s]; [reflexivity | discriminate]. Qed.

(** C1 fails as stated: a token issued at 1.5 s for one millisecond has
    its expiry truncated to 1 s and is rejected as expired at the moment
    of issue. *)
Lemma C1_counterexample :
  is_ok (fst (shortLived (H := refJwt))) = true ∧
  ValidateToken (H := refJwt) (snd shortLived) (1500 * millisecond) (tokenOf (fst shortLived))
  = Err (ErrParseFailed ErrTokenExpired).
Proof. split; vm_compute; reflexivity. Qed.

Lemma C1_token_round_trip_witness :
  ValidateToken (H := refJwt) (snd issued) second issuedToken = Ok 7%N.
Proof.
  apply (C1_token_round_trip (H := refJwt) (NewJWTService (Some hourlyConfig))
           0 [x00] 7 hour issuedToken (snd issued) second).
  - discriminate.
  - apply (ok_eta (issued (H := refJwt))). vm_compute; reflexivity.
  - vm_compute; reflexivity.
  - vm_compute; discriminate.
  - vm_compute; discriminate.
Defined.

(** C2 fails as stated: a revoked string that is no token is taken off
    the revocation map by the next cleanup, after which validation fails
    with a parse error instead of the revoked error. *)
Lemma C2_counterexample :
  fst garbageRevoked = Ok tt ∧
  ValidateToken (H := refJwt) (snd garbageRevoked) 0 "garbage" = Err ErrTokenRevoked ∧
  ValidateToken (H := refJwt) (CleanupExpiredTokens (snd garbageRevoked) 0) 0 "garbage"
  = Err (ErrParseFailed ErrTokenMalformed).
Proof. repeat split; vm_compute; reflexivity. Qed.

Lemma C2_revocation_finality_witness :
  ValidateToken (H := refJwt) (run (snd revoked) laterCalls) (7 * second) issuedToken
  = Err ErrTokenRevoked.
Proof.
  assert (RevokeToken (snd (issued (H := refJwt))) second issuedToken
          = (Ok tt, snd (revoked (H := refJwt)))) as Hrevoked.
  { apply (ok_unit_eta (revoked (H := refJwt))). vm_compute; reflexivity. }
  apply (proj1 (C2_revocation_finality (H := refJwt) (snd issued) second issuedToken
                  (snd revoked) Hrevoked)).
  vm_compute; reflexivity.
Defined.

Lemma C3_refresh_lineage_cap_witness :
  exists toks,
    List.length toks = 2 ∧
    fst (refreshLineage (H := refJwt) (snd issued) issuedToken threeRefreshes)
    = (map Ok toks ++ [Err ErrRefreshLimit])%list.
Proof.
  apply (C3_refresh_lineage_cap (H := refJwt) (NewJWTService (Some hourlyConfig))
           0 [x00] 7 hour issuedToken (snd issued) threeRefreshes).
  - reflexivity.
  - vm_compute; discriminate.
  - vm_compute; reflexivity.
  - apply (ok_eta (issued (H := refJwt))). vm_compute; reflexivity.
  - vm_compute; reflexivity.
  - reflexivity.
  - vm_compute; reflexivity.
Defined.


(** C5 fails as stated: the record of a revoked string that is no token is
    removed by a cleanup although no expiry of it has passed. *)
Lemma C5_counterexample :
  revokedTokens (snd garbageRevoked) !! "garbage" = Some 0%Z ∧
  revokedTokens (CleanupExpiredTokens (H := refJwt) (snd garbageRevoked) 0) !! "garbage" = None ∧
  expiryPassed (H := refJwt) 0 "garbage" = false.
Proof. repeat split; vm_compute; reflexivity. Qed.


(** ** PasswordGenerator *)

Lemma drawPassword_length rnd charset n : forall pos r pos',
  drawPassword rnd pos charset n = (Ok r, pos') -> String.length r = n.
Proof.
  induction n as [| n IH]; intros pos r pos'; cbn [drawPassword].
  - intros [= <- _]. reflexivity.
  - destruct (secureRandomInt rnd pos (len charset)) as [[i | e] pos1]; [| discriminate].
    destruct (drawPassword rnd pos1 charset n) as [[r1 | e] pos2] eqn:Hd; [| discriminate].
    intros [= <- _]. cbn [String.length]. f_equal. eapply IH. eassumption.
Qed.

Lemma drawPassword_total rnd charset n : forall pos,
  (forall k, is_Some (rnd k)) ->
  (0 < len charset)%Z ->
  exists r pos', drawPassword rnd pos charset n = (Ok r, pos').
Proof.
  intros pos Hrnd Hlen. revert pos.
  induction n as [| n IH]; intros pos; cbn [drawPassword]; [eauto |].
  unfold secureRandomInt.
  destruct (Z.leb_spec (len charset) 0); [lia |].
  destruct (Hrnd pos) as [[[[b0 b1] b2] b3] ->].
  destruct (IH (S pos)) as (r & pos' & ->). eauto.
Qed.

(** The retry loop returns from inside only with a result of [gen] that
    meets the requirements. *)
Lemma retryLoop_returned gen meets (P : string -> Prop) attempts : forall pos r pos',
  (forall p x p', gen p = (Done x, p') -> P x) ->
  retryLoop gen meets attempts pos = (Done (Some r), pos') ->
  P r ∧ meets r = true.
Proof.
  induction attempts as [| k IH]; intros pos r pos' Hgen; cbn [retryLoop]; [discriminate |].
  destruct (gen pos) as [[x | e |] pos1] eqn:Hg; try discriminate.
  destruct (meets x) eqn:Hm.
  - intros [= <- _]. split; [eapply Hgen; eassumption | assumption].
  - apply IH. assumption.
Qed.

(** If every result of [gen] meets the requirements, the loop is never
    left after its last attempt. *)
Lemma retryLoop_no_fallthrough gen meets attempts : forall pos pos',
  (forall p x p', gen p = (Done x, p') -> meets x = true) ->
  retryLoop gen meets (S attempts) pos ≠ (Done None, pos').
Proof.
  intros pos pos' Hgen. cbn [retryLoop].
  destruct (gen pos) as [[x | e |] pos1] eqn:Hg; try discriminate.
  rewrite (Hgen _ _ _ Hg). discriminate.
Qed.

(** Whenever [GeneratePassword] returns a password, it has the requested
    length and meets the requirements. *)
Lemma GeneratePassword_returned fuel rnd options : forall pos r pos',
  GeneratePassword fuel rnd pos options = (Done r, pos') ->
  len r = Length options ∧ meetsRequirements r options = true.
Proof.
  induction fuel as [| fuel IH]; intros pos r pos'; cbn [GeneratePassword]; [discriminate |].
  destruct (validateOptions options) as [[] | e] eqn:Hv; [| discriminate].
  destruct (String.eqb (buildCharset options) ""); [discriminate |].
  destruct (drawPassword rnd pos (buildCharset options) (Z.to_nat (Length options)))
    as [[result | e] pos1] eqn:Hd; [| discriminate].
  destruct (meetsRequirements result options) eqn:Hm.
  - intros [= <- _]. split; [| assumption].
    apply drawPassword_length in Hd. unfold len. rewrite Hd.
    unfold validateOptions in Hv.
    destruct (Z.leb_spec (Length options) 0); [discriminate | lia].
  - destruct (retryLoop _ _ 10 pos1) as [[[x |] | e |] pos2] eqn:Hl; try discriminate.
    + intros [= <- _].
      eapply (retryLoop_returned _ _ (fun y => len y = Length options)) in Hl;
        [exact Hl |].
      intros p y p' Hg. apply (IH _ _ _ Hg).
    + exfalso. revert Hl. apply retryLoop_no_fallthrough.
      intros p y p' Hg. apply (IH _ _ _ Hg).
Qed.

(** No single character is both a lowercase and an uppercase letter. *)
Lemma twoClassesOneChar_unmet r :
  len r = 1%Z -> meetsRequirements r twoClassesOneChar = false.
Proof.
  unfold len. destruct r as [| c [| d r]]; cbn [String.length]; try lia.
  intros _. destruct c as [[] [] [] [] [] [] [] []]; reflexivity.
Qed.

(** C7 (the code at the failing input).  The options [{Length: 1,
    IncludeLower, IncludeUpper}] pass [validateOptions], yet
    [GeneratePassword] returns no password for them, whatever the random
    source and however deep the recursion is allowed to go; with a random
    source that never fails every depth of recursion is exceeded, so the
    call does not return at all. *)
Theorem C7_GeneratePassword_never_returns :
  validateOptions twoClassesOneChar = Ok tt ∧
  (forall fuel rnd pos r pos',
      GeneratePassword fuel rnd pos twoClassesOneChar ≠ (Done r, pos')) ∧
  (forall fuel rnd pos,
      (forall k, is_Some (rnd k)) ->
      fst (GeneratePassword fuel rnd pos twoClassesOneChar) = OutOfFuel).
Proof.
  split; [reflexivity |]. split.
  - intros fuel rnd pos r pos' Hg.
    apply GeneratePassword_returned in Hg as [Hlen Hm].
    rewrite twoClassesOneChar_unmet in Hm by exact Hlen. discriminate.
  - intros fuel rnd pos Hrnd. revert pos.
    induction fuel as [| fuel IH]; intros pos; [reflexivity |].
    cbn [GeneratePassword].
    change (validateOptions twoClassesOneChar) with (@Ok PwError unit tt).
    change (String.eqb (buildCharset twoClassesOneChar) "") with false.
    cbv iota.
    destruct (drawPassword_total rnd (buildCharset twoClassesOneChar)
                (Z.to_nat (Length twoClassesOneChar)) pos Hrnd ltac:(reflexivity))
      as (r & pos1 & Hd).
    rewrite Hd.
    rewrite twoClassesOneChar_unmet
      by (apply drawPassword_length in Hd; unfold len; rewrite Hd; reflexivity).
    cbn [retryLoop]. specialize (IH pos1).
    destruct (GeneratePassword fuel rnd pos1 twoClassesOneChar) as [[x | e |] pos2];
      cbn [fst] in IH; try discriminate.
    reflexivity.
Qed.

Lemma C7_GeneratePassword_never_returns_witness :
  fst (GeneratePassword 30 zeroSource 0 twoClassesOneChar) = OutOfFuel.
Proof.
  apply (proj2 (proj2 C7_GeneratePassword_never_returns) 30%nat zeroSource 0%nat).
  intros k. unfold zeroSource. eauto.
Defined.

(** ** MemoryHistoryStorage *)

(** On a history kept in the order of the additions, a cleanup keeps the
    [keepCount] most recent entries, stored newest first. *)
Lemma Storage_Cleanup_first s userID keepCount hs :
  userID ≠ 0%N ->
  histories s !! userID = Some hs ->
  (0 <= keepCount < Z.of_nat (List.length hs))%Z ->
  fst (Storage_Cleanup s userID keepCount) = Returns (Ok tt) ∧
  histories (snd (Storage_Cleanup s userID keepCount)) !! userID
  = Some (reverse (mostRecent (Z.to_nat keepCount) hs)).
Proof.
  intros Hu Hhs Hk. unfold Storage_Cleanup.
  destruct (N.eqb_spec userID 0); [contradiction |].
  rewrite Hhs.
  destruct (Z.leb_spec (Z.of_nat (List.length hs)) keepCount); [lia |].
  destruct (Z.ltb_spec keepCount 0); [lia |].
  cbn [fst snd histories]. split; [reflexivity |].
  rewrite lookup_insert_eq, take_reverse. reflexivity.
Qed.

(** C8 (the code at the failing input).  Three additions, a cleanup to
    two entries, a fourth addition and a second cleanup to two entries:
    the second cleanup keeps [h4] and [h2] and drops [h3], although the
    two most recently added entries are [h3] and [h4]. *)
Theorem C8_second_cleanup_drops_newer_entry :
  storedHashes (foldl historyCall NewMemoryHistoryStorage fourChanges) 1 = ["h4"; "h2"] ∧
  mostRecent 2 (addedHashes 1 fourChanges) = ["h3"; "h4"].
Proof. split; vm_compute; reflexivity. Qed.

(** ** PasswordStrengthChecker *)

Lemma clampScore_mono a b : (a <= b)%Z -> (clampScore a <= clampScore b)%Z.
Proof.
  intros Hab. unfold clampScore. cbv zeta.
  destruct (Z.ltb_spec a 0), (Z.ltb_spec b 0);
    repeat match goal with |- context [(?x <? ?y)%Z] => destruct (Z.ltb_spec x y) end; lia.
Qed.

Lemma clampScore_nonneg a : (0 <= clampScore a)%Z.
Proof.
  unfold clampScore. cbv zeta.
  destruct (Z.ltb_spec a 0);
    repeat match goal with |- context [(?x <? ?y)%Z] => destruct (Z.ltb_spec x y) end; lia.
Qed.

Lemma lengthScore_mono a b : (a <= b)%Z -> (lengthScore a <= lengthScore b)%Z.
Proof.
  intros Hab. unfold lengthScore.
  repeat match goal with |- context [(?x <? ?y)%Z] => destruct (Z.ltb_spec x y) end; lia.
Qed.

Lemma fst_award_zero cond a acc : fst (award cond 0 a acc) = fst acc.
Proof. unfold award. destruct cond; cbn [fst]; lia. Qed.

Lemma fst_award cond d a acc :
  fst (award cond d a acc) = (fst acc + (if cond then d else 0))%Z.
Proof. unfold award. destruct cond; cbn [fst]; lia. Qed.

Lemma fst_penalise cond d a acc :
  fst (penalise cond d a acc) = (fst acc - (if cond then d else 0))%Z.
Proof. unfold penalise. destruct cond; cbn [fst]; lia. Qed.

(** The score of a nonempty password, in closed form. *)
Lemma CheckStrength_score c password :
  password ≠ "" ->
  Score (CheckStrength c password)
  = clampScore (lengthScore (len password) + charTypeCount password * 10
                + patternAdjustment c password)%Z.
Proof.
  intros Hne. unfold CheckStrength.
  destruct (String.eqb_spec password ""); [contradiction |].
  cbv zeta. cbn [Score]. f_equal.
  rewrite !fst_penalise, fst_award. cbn [fst].
  rewrite !fst_award_zero, fst_award. cbn [fst].
  unfold patternAdjustment.
  assert ((if (8 <=? len password)%Z then lengthScore (len password) else 0%Z)
          = lengthScore (len password)) as ->.
  { unfold lengthScore.
    destruct (Z.leb_spec 8 (len password)), (Z.ltb_spec (len password) 8);
      (reflexivity || lia). }
  destruct (countUniqueChars password <? Z.quot (len password) 2)%Z,
    (hasSequentialPattern password), (hasRepeatedPattern password),
    (hasKeyboardPattern password),
    (enableDictionaryCheck c && isCommonPassword password); cbn [negb]; lia.
Qed.

Lemma len_empty s : (len s <= 0)%Z -> s = "".
Proof. destruct s; [reflexivity |]. unfold len; cbn [String.length]; lia. Qed.

Lemma CheckStrength_mono c p q :
  (len q <= len p)%Z ->
  (charTypeCount q <= charTypeCount p)%Z ->
  (patternAdjustment c q <= patternAdjustment c p)%Z ->
  (Score (CheckStrength c q) <= Score (CheckStrength c p))%Z.
Proof.
  intros Hlen Hcls Hadj.
  destruct (String.eqb_spec q "") as [-> | Hq].
  - destruct (String.eqb_spec p "") as [-> | Hp]; [reflexivity |].
    rewrite (CheckStrength_score c p Hp). apply clampScore_nonneg.
  - assert (p ≠ "") as Hp.
    { intros ->. apply Hq, len_empty. exact Hlen. }
    rewrite (CheckStrength_score c p Hp), (CheckStrength_score c q Hq).
    apply clampScore_mono. pose proof (lengthScore_mono _ _ Hlen). lia.
Qed.

(** C9 (as amended).  Strength monotonicity, for ASCII passwords: of two
    passwords of equal length, one with all four character classes and one
    with a single class, the four-class one scores at least as much
    provided its uniqueness bonus less its pattern and dictionary
    penalties is not smaller than the other's; and of two passwords with
    the same number of classes the longer scores at least as much under
    the same proviso. *)
Theorem C9_strength_monotone_under_equal_adjustment c p q :
  isASCII p = true ->
  isASCII q = true ->
  (patternAdjustment c q <= patternAdjustment c p)%Z ->
  (len p = len q -> charTypeCount p = 4%Z -> charTypeCount q = 1%Z ->
   (Score (CheckStrength c q) <= Score (CheckStrength c p))%Z)
  ∧ (charTypeCount p = charTypeCount q -> (len q <= len p)%Z ->
     (Score (CheckStrength c q) <= Score (CheckStrength c p))%Z).
Proof.
  intros _ _ Hadj. split.
  - intros Hlen Hp Hq. apply CheckStrength_mono; lia.
  - intros Hcls Hlen. apply CheckStrength_mono; lia.
Qed.

Lemma C9_strength_monotone_under_equal_adjustment_witness :
  (Score (CheckStrength dictionaryChecker "acegikmo")
   <= Score (CheckStrength dictionaryChecker "aC3g!kmo"))%Z
  ∧ (Score (CheckStrength dictionaryChecker "acegikmo")
     <= Score (CheckStrength dictionaryChecker "acegikmoqsuw"))%Z.
Proof.
  split.
  - apply (proj1 (C9_strength_monotone_under_equal_adjustment dictionaryChecker
                    "aC3g!kmo" "acegikmo" ltac:(reflexivity) ltac:(reflexivity)
                    ltac:(vm_compute; discriminate)));
      vm_compute; reflexivity.
  - apply (proj2 (C9_strength_monotone_under_equal_adjustment dictionaryChecker
                    "acegikmoqsuw" "acegikmo" ltac:(reflexivity) ltac:(reflexivity)
                    ltac:(vm_compute; discriminate))).
    + vm_compute; reflexivity.
    + vm_compute; discriminate.
Defined.

(** C9 fails as stated, in both parts: an 18-character password with all
    four classes scores 50 where an 18-character password of lowercase
    letters scores 60; and a 9-character lowercase password scores 20
    where an 8-character one scores 40. *)
Lemma C9_counterexample :
  (len "qwe123A!!!!!!!!!!!" = len "acegikmoqsuwybdfhj" ∧
   charTypeCount "qwe123A!!!!!!!!!!!" = 4%Z ∧
   charTypeCount "acegikmoqsuwybdfhj" = 1%Z ∧
   Score (CheckStrength dictionaryChecker "qwe123A!!!!!!!!!!!") = 50%Z ∧
   Score (CheckStrength dictionaryChecker "acegikmoqsuwybdfhj") = 60%Z)
  ∧ (charTypeCount "aaaaaaaaa" = charTypeCount "acegikmo" ∧
     (len "acegikmo" < len "aaaaaaaaa")%Z ∧
     Score (CheckStrength dictionaryChecker "aaaaaaaaa") = 20%Z ∧
     Score (CheckStrength dictionaryChecker "acegikmo") = 40%Z).
Proof. repeat split; vm_compute; reflexivity. Qed.

(** ** Hashers *)

(** C10 (the code at the failing input).  On the empty password
    [PasswordHasher.Hash] fails with the empty-password error, whereas
    [authService.HashPassword] has no such test: whenever the salt can be
    read it returns an encoding of the hash of the empty password. *)
Theorem C10_HashPassword_accepts_empty bcrypt argon2 base64 h passwordConfig salt :
  PasswordHasher_Hash bcrypt h "" = Err ErrPasswordEmpty ∧
  authService_HashPassword argon2 base64 passwordConfig (Some salt) ""
  = Ok (base64 salt ++ "$" ++
        base64 (argon2 "" salt (cfgTime passwordConfig) (cfgMemory passwordConfig)
                  (cfgThreads passwordConfig) (cfgKeyLen passwordConfig))).
Proof. split; reflexivity. Qed.

(** * Further properties of the code *)

(** ** The token service: indices, errors and composition *)

Section TokenServiceMore.
Context `{JwtLibrary}.

Lemma Generate_err_state s now rnd userID expiration e s' :
  GenerateTokenWithExpiration s now rnd userID expiration = (Err e, s') -> s' = s.
Proof.
  unfold GenerateTokenWithExpiration.
  destruct (userID =? 0)%N; [intros [= _ <-]; reflexivity |].
  destruct (expiration <=? 0)%Z; [intros [= _ <-]; reflexivity |].
  destruct (SignedString _ _); [discriminate | intros [= _ <-]; reflexivity].
Qed.

Lemma lookup_foldl_delete_notin {V} (m : gmap string V) (l : list string) (k : string) :
  k ∉ l -> foldl (fun m t => delete t m) m l !! k = m !! k.
Proof.
  revert m. induction l as [| a l IH]; intros m Hk; cbn [foldl]; [reflexivity |].
  apply not_elem_of_cons in Hk as [Hne Hk].
  rewrite IH by assumption. apply lookup_delete_ne. auto.
Qed.

Lemma lookup_foldl_delete_in {V} (m : gmap string V) (l : list string) (k : string) :
  k ∈ l -> foldl (fun m t => delete t m) m l !! k = None.
Proof.
  revert m. induction l as [| a l IH]; intros m Hk; cbn [foldl].
  - apply elem_of_nil in Hk. contradiction.
  - destruct (decide (k ∈ l)) as [Hin | Hnin]; [apply IH; assumption |].
    apply elem_of_cons in Hk as [-> | Hk]; [| contradiction].
    rewrite lookup_foldl_delete_notin by assumption. apply lookup_delete_eq.
Qed.

Lemma lookup_foldl_insert_in (m : gmap string Z) (l : list string) (v : Z) (k : string) :
  k ∈ l -> foldl (fun m t => <[t := v]> m) m l !! k = Some v.
Proof.
  revert m. induction l as [| a l IH]; intros m Hk; cbn [foldl].
  - apply elem_of_nil in Hk. contradiction.
  - destruct (decide (k ∈ l)) as [Hin | Hnin]; [apply IH; assumption |].
    apply elem_of_cons in Hk as [-> | Hk]; [| contradiction].
    clear IH. revert m. induction l as [| b l IHl]; intros m; cbn [foldl].
    + apply lookup_insert_eq.
    + apply not_elem_of_cons in Hnin as [Hne Hnin].
      rewrite insert_insert_ne by auto. apply IHl. assumption.
Qed.

Lemma indexConsistent_ext s s' :
  userTokens s' = userTokens s -> tokenUsers s' = tokenUsers s ->
  indexConsistent s -> indexConsistent s'.
Proof. unfold indexConsistent. intros -> ->. auto. Qed.

Lemma indexConsistent_Generate s now rnd userID expiration :
  indexConsistent s ->
  indexConsistent (snd (GenerateTokenWithExpiration s now rnd userID expiration)).
Proof.
  intros Hinv. unfold GenerateTokenWithExpiration.
  destruct (userID =? 0)%N; [assumption |].
  destruct (expiration <=? 0)%Z; [assumption |].
  destruct (SignedString _ _) as [tok | e] eqn:Hs; [| assumption].
  apply unverified_signed in Hs.
  intros u tokens t; cbn [snd userTokens tokenUsers]. intros Hl Hin.
  destruct (decide (userID = u)) as [<- | Hne].
  - rewrite lookup_insert_eq in Hl. injection Hl as <-.
    apply elem_of_app in Hin as [Hin | Hin].
    + destruct (userTokens s !! userID) as [old |] eqn:Hold; cbn in Hin;
        [| apply elem_of_nil in Hin; contradiction].
      destruct (Hinv _ _ _ Hold Hin) as [Htu Hc]. split; [| assumption].
      destruct (decide (tok = t)) as [-> | Hnt];
        [apply lookup_insert_eq | rewrite lookup_insert_ne by assumption; assumption].
    + apply list_elem_of_singleton in Hin as ->. split; [apply lookup_insert_eq |].
      eexists. split; [eassumption | reflexivity].
  - rewrite lookup_insert_ne in Hl by assumption.
    destruct (Hinv _ _ _ Hl Hin) as [Htu (c & Hc & Hu)]. split; [| eauto].
    destruct (decide (tok = t)) as [-> | Hnt].
    + rewrite Hs in Hc. injection Hc as <-. cbn in Hu. contradiction.
    + rewrite lookup_insert_ne by assumption. assumption.
Qed.

Lemma indexConsistent_Revoke s now t :
  indexConsistent s -> indexConsistent (snd (RevokeToken s now t)).
Proof.
  intros Hinv. unfold RevokeToken.
  destruct (String.eqb t ""); [assumption |].
  destruct (tokenUsers s !! t) as [owner |] eqn:Ho; cbn [snd];
    [| exact Hinv].
  intros u tokens t'; cbn [userTokens tokenUsers]. intros Hl Hin.
  assert (userTokens s !! u = Some tokens ∧ t' ≠ t ∨
          exists old, userTokens s !! u = Some old ∧ t' ∈ old ∧ t' ≠ t) as Hcase.
  { destruct (userTokens s !! owner) as [old |] eqn:Hold.
    - destruct (decide (owner = u)) as [-> | Hne].
      + rewrite lookup_insert_eq in Hl. injection Hl as <-.
        apply list_elem_of_filter in Hin as [Hnt Hin]. right. eauto.
      + rewrite lookup_insert_ne in Hl by assumption. left. split; [assumption |].
        intros ->. destruct (Hinv _ _ _ Hl Hin) as [Htu _]. congruence.
    - left. split; [assumption |]. intros ->.
      destruct (Hinv _ _ _ Hl Hin) as [Htu _].
      assert (owner = u) as -> by congruence. congruence. }
  destruct Hcase as [[Hl' Hnt] | (old & Hl' & Hin' & Hnt)].
  - destruct (Hinv _ _ _ Hl' Hin) as [Htu Hc]. split; [| assumption].
    rewrite lookup_delete_ne by auto. assumption.
  - destruct (Hinv _ _ _ Hl' Hin') as [Htu Hc]. split; [| assumption].
    rewrite lookup_delete_ne by auto. assumption.
Qed.

Lemma indexConsistent_RevokeAll s now userID :
  indexConsistent s -> indexConsistent (snd (RevokeAllUserTokens s now userID)).
Proof.
  intros Hinv. unfold RevokeAllUserTokens.
  destruct (userID =? 0)%N; [assumption |].
  destruct (userTokens s !! userID) as [tokens |] eqn:Ht; [| assumption].
  intros u toks t; cbn [snd userTokens tokenUsers]. intros Hl Hin.
  destruct (decide (userID = u)) as [<- | Hne];
    [rewrite lookup_delete_eq in Hl; discriminate |].
  rewrite lookup_delete_ne in Hl by assumption.
  destruct (Hinv _ _ _ Hl Hin) as [Htu Hc]. split; [| assumption].
  rewrite lookup_foldl_delete_notin; [assumption |].
  intros Hin'. destruct (Hinv _ _ _ Ht Hin') as [Htu' _]. congruence.
Qed.

Lemma indexConsistent_Refresh s clk rnd t :
  indexConsistent s -> indexConsistent (snd (RefreshToken s clk rnd t)).
Proof.
  intros Hinv. unfold RefreshToken.
  destruct (negb (AllowRefresh (config s))); [assumption |].
  destruct (String.eqb t ""); [assumption |].
  destruct (ParseToken s (atParse clk) t) as [claims | e]; [| assumption].
  destruct (MaxRefreshCount (config s) <=? _)%Z; [assumption |].
  destruct (beforeRefreshDeadline _ _ _); [assumption |].
  unfold GenerateToken.
  pose proof (indexConsistent_Generate s (atIssue clk) rnd (UserID claims)
                (DefaultExpiration (config s)) Hinv) as Hg.
  destruct (GenerateTokenWithExpiration s (atIssue clk) rnd (UserID claims) _)
    as [[newToken | e] s1]; cbn [snd] in Hg |- *; [| assumption].
  set (s2 := setRefreshCount s1 newToken (default 0%Z (refreshCounts s !! t) + 1)).
  assert (indexConsistent s2) as H2
    by (apply (indexConsistent_ext s1); [reflexivity | reflexivity | assumption]).
  pose proof (indexConsistent_Revoke s2 (atRevoke clk) t H2) as H3.
  destruct (RevokeToken s2 (atRevoke clk) t) as [[[] | e] s3]; cbn [snd] in H3 |- *;
    [assumption |].
  apply (indexConsistent_ext s3); [reflexivity | reflexivity | assumption].
Qed.

(** X1.  In every state the service reaches from a new one, a token
    listed in the per-identity index is mapped back to that identity by the
    reverse index (and parses to claims of that identity). *)
Theorem index_consistent_reachable cfg cs :
  indexConsistent (run (NewJWTService cfg) cs).
Proof.
  assert (indexConsistent (NewJWTService cfg)) as Hinit.
  { intros u tokens t Hl. cbn in Hl. rewrite lookup_empty in Hl. discriminate. }
  revert Hinit. generalize (NewJWTService cfg).
  induction cs as [| c cs IH]; intros s Hs; cbn [run foldl]; [assumption |].
  apply IH. destruct c; cbn [call].
  - apply indexConsistent_Generate. assumption.
  - apply indexConsistent_Revoke. assumption.
  - assumption.
  - apply indexConsistent_Refresh. assumption.
  - apply indexConsistent_RevokeAll. assumption.
Qed.

(** X2.  [RevokeAllUserTokens] on a nonzero identity with an index entry
    succeeds, removes the entry, and leaves every token that was listed
    revoked, unmapped in the reverse index and without a refresh count;
    [ValidateToken] then rejects each of them as revoked. *)
Theorem RevokeAll_revokes_listed s now userID tokens :
  userID ≠ 0%N ->
  userTokens s !! userID = Some tokens ->
  fst (RevokeAllUserTokens s now userID) = Ok tt ∧
  userTokens (snd (RevokeAllUserTokens s now userID)) !! userID = None ∧
  forall t, t ∈ tokens ->
    revokedTokens (snd (RevokeAllUserTokens s now userID)) !! t = Some now ∧
    tokenUsers (snd (RevokeAllUserTokens s now userID)) !! t = None ∧
    refreshCounts (snd (RevokeAllUserTokens s now userID)) !! t = None ∧
    (t ≠ "" -> forall now',
        ValidateToken (snd (RevokeAllUserTokens s now userID)) now' t = Err ErrTokenRevoked).
Proof.
  intros Hu Ht. unfold RevokeAllUserTokens.
  destruct (N.eqb_spec userID 0); [contradiction |].
  rewrite Ht. cbn [fst snd userTokens revokedTokens tokenUsers refreshCounts].
  split; [reflexivity |]. split; [apply lookup_delete_eq |].
  intros t Hin.
  pose proof (lookup_foldl_insert_in (revokedTokens s) tokens now t Hin) as Hrev.
  split; [assumption |].
  split; [apply lookup_foldl_delete_in; assumption |].
  split; [apply lookup_foldl_delete_in; assumption |].
  intros Hne now'. apply Validate_revoked.
  - destruct (String.eqb_spec t ""); [contradiction | reflexivity].
  - cbn [revokedTokens]. rewrite Hrev. eauto.
Qed.

(** X3.  A [RefreshToken] that fails leaves the service state as it was. *)
Theorem Refresh_failure_keeps_state s clk rnd t e s' :
  RefreshToken s clk rnd t = (Err e, s') -> s' = s.
Proof.
  unfold RefreshToken.
  destruct (negb (AllowRefresh (config s))); [intros [= _ <-]; reflexivity |].
  destruct (String.eqb t "") eqn:Hne; [intros [= _ <-]; reflexivity |].
  destruct (ParseToken s (atParse clk) t) as [claims | pe]; [| intros [= _ <-]; reflexivity].
  destruct (MaxRefreshCount (config s) <=? _)%Z; [intros [= _ <-]; reflexivity |].
  destruct (beforeRefreshDeadline _ _ _); [intros [= _ <-]; reflexivity |].
  unfold GenerateToken.
  destruct (GenerateTokenWithExpiration s (atIssue clk) rnd (UserID claims) _)
    as [[newToken | ge] s1] eqn:Hg.
  - destruct (RevokeToken _ (atRevoke clk) t) as [r s3] eqn:Hr.
    destruct (Revoke_inv _ _ _ _ _ Hr Hne) as (-> & _). discriminate.
  - intros [= _ <-]. eapply Generate_err_state. eassumption.
Qed.

(** X4.  [RevokeToken] drops the refresh count of the token, and
    [RefreshToken] reads only that count: a revoked token that still
    parses is refreshed again whatever its count was before the
    revocation, and the new token starts at count 1. *)
Theorem Revoke_resets_refresh_count s nowR t s1 clk rnd claims :
  RevokeToken s nowR t = (Ok tt, s1) ->
  AllowRefresh (config s1) = true ->
  ParseToken s1 (atParse clk) t = Ok claims ->
  UserID claims ≠ 0%N ->
  (0 < DefaultExpiration (config s1))%Z ->
  (0 < MaxRefreshCount (config s1))%Z ->
  beforeRefreshDeadline (config s1) (atWindow clk) claims = false ->
  refreshCounts s1 !! t = None ∧
  exists newTok s2,
    RefreshToken s1 clk rnd t = (Ok newTok, s2) ∧
    (newTok ≠ t -> refreshCounts s2 !! newTok = Some 1%Z).
Proof.
  intros Hrv Ha Hp Hu Hd Hmax Hwin.
  pose proof (Revoke_ok_nonempty _ _ _ _ Hrv) as Hne.
  destruct (Revoke_inv _ _ _ _ _ Hrv Hne) as (_ & _ & _ & _ & Hrc).
  assert (refreshCounts s1 !! t = None) as Hnone
    by (rewrite Hrc; apply lookup_delete_eq).
  split; [assumption |].
  destruct (Refresh_succeeds s1 clk rnd t claims Ha Hp) as (newTok & s2 & Hr);
    [rewrite Hnone; cbn; lia | assumption | assumption | assumption |].
  exists newTok, s2. split; [assumption |].
  destruct (Refresh_inv _ _ _ _ _ _ Hr) as (_ & _ & _ & _ & _ & _ & Hrc2).
  intros Hdiff. rewrite Hrc2, lookup_delete_ne, lookup_insert_eq, Hnone by auto.
  reflexivity.
Qed.

(** X5.  [GenerateTokenWithExpiration] fails with the zero-identity error
    on identity 0 (whatever the lifetime), with the lifetime error on a
    nonzero identity and a lifetime that is not positive, both without
    changing the state; otherwise it succeeds and the token it returns is
    the last of the identity's list and is mapped to the identity. *)
Theorem Generate_outcomes s now rnd userID expiration :
  (userID = 0%N ->
   GenerateTokenWithExpiration s now rnd userID expiration = (Err ErrUserIDZero, s))
  ∧ (userID ≠ 0%N -> (expiration <= 0)%Z ->
     GenerateTokenWithExpiration s now rnd userID expiration
     = (Err ErrExpirationNotPositive, s))
  ∧ (userID ≠ 0%N -> (0 < expiration)%Z ->
     exists t s',
       GenerateTokenWithExpiration s now rnd userID expiration = (Ok t, s') ∧
       userTokens s' !! userID = Some (default [] (userTokens s !! userID) ++ [t])%list ∧
       tokenUsers s' !! t = Some userID).
Proof.
  unfold GenerateTokenWithExpiration. repeat split.
  - intros ->. reflexivity.
  - intros Hu He. destruct (N.eqb_spec userID 0); [contradiction |].
    destruct (Z.leb_spec expiration 0); [reflexivity | lia].
  - intros Hu He. destruct (N.eqb_spec userID 0); [contradiction |].
    destruct (Z.leb_spec expiration 0); [lia |].
    pose proof (sign_succeeds (secretKey s)
                  (claimsFor (config s) now rnd userID expiration)) as Hok.
    destruct (SignedString _ _) as [tok | e]; [| discriminate].
    eexists _, _. split; [reflexivity |]. cbn [userTokens tokenUsers].
    split; apply lookup_insert_eq.
Qed.

(** X6.  For a token the service issued, [GetTokenRemainingTime] at any
    later clock readings returns the time left until the truncated expiry,
    a positive duration of at most the lifetime asked for, and from that
    expiry on the uniform expired error; it does not look at the
    revocation map. *)
Theorem RemainingTime_of_issued s now rnd userID expiration t s' s2 nowParse nowUntil :
  GenerateTokenWithExpiration s now rnd userID expiration = (Ok t, s') ->
  secretKey s2 = secretKey s ->
  (now <= nowParse)%Z ->
  (nowParse <= nowUntil)%Z ->
  GetTokenRemainingTime s2 nowParse nowUntil t
  = (if (nowUntil <? dateTime (NewNumericDate (now + expiration)))%Z
     then Ok (dateTime (NewNumericDate (now + expiration)) - nowUntil)%Z
     else Err ErrTokenHasExpired)
  ∧ (dateTime (NewNumericDate (now + expiration)) - nowUntil <= expiration)%Z.
Proof.
  intros Hg Hkey Hle1 Hle2.
  destruct (Generate_inv _ _ _ _ _ _ _ Hg) as (_ & _ & Hs & _).
  pose proof (numericDate_le (now + expiration)) as Hup.
  split; [| lia].
  unfold GetTokenRemainingTime, ParseToken.
  rewrite (signed_nonempty _ _ _ Hs), Hkey, (parse_signed _ _ _ nowParse Hs).
  set (exp := dateTime (NewNumericDate (now + expiration))) in *.
  destruct (Z.ltb_spec nowUntil exp) as [Hlt | Hge].
  - rewrite validate_fresh_claims by (fold exp; lia). cbn [claimsFor ExpiresAt].
    fold exp. destruct (Z.leb_spec (exp - nowUntil) 0); [lia | reflexivity].
  - destruct (Z.lt_ge_cases nowParse exp) as [Hp | Hp].
    + rewrite validate_fresh_claims by (fold exp; lia). cbn [claimsFor ExpiresAt].
      fold exp. destruct (Z.leb_spec (exp - nowUntil) 0); [reflexivity | lia].
    + rewrite validate_expired_claims by (fold exp; lia). reflexivity.
Qed.

Lemma cleanupSelects_mono now1 now2 t :
  (now1 <= now2)%Z -> cleanupSelects now1 t = true -> cleanupSelects now2 t = true.
Proof.
  intros Hle. unfold cleanupSelects.
  destruct (parseTokenUnsafe t) as [claims | e]; [| reflexivity].
  destruct (ExpiresAt claims) as [e |]; [| discriminate].
  unfold Before. intros Hlt%Z.ltb_lt. apply Z.ltb_lt. lia.
Qed.

(** X7.  [CleanupExpiredTokens] only removes revocation records, and a
    cleanup at a later time subsumes an earlier one: running both gives the
    revocation map the later one alone gives.  In particular a cleanup
    repeated at the same time changes nothing. *)
Theorem Cleanup_later_subsumes s now1 now2 :
  (now1 <= now2)%Z ->
  revokedTokens (CleanupExpiredTokens (CleanupExpiredTokens s now1) now2)
  = revokedTokens (CleanupExpiredTokens s now2)
  ∧ revokedTokens (CleanupExpiredTokens s now1) ⊆ revokedTokens s.
Proof.
  intros Hle. split.
  - apply map_eq. intros t. rewrite !lookup_cleanup.
    destruct (cleanupSelects now2 t) eqn:H2; [reflexivity |].
    destruct (cleanupSelects now1 t) eqn:H1; [| reflexivity].
    rewrite (cleanupSelects_mono _ _ _ Hle H1) in H2. discriminate.
  - apply map_subseteq_spec. intros t ts. rewrite lookup_cleanup.
    destruct (cleanupSelects now1 t); [discriminate | auto].
Qed.

(** X8.  [authService.RefreshToken] over the JWT service validates the
    token first: a revoked token is refused with the revoked error and the
    state is unchanged; a token that validates to a nonzero identity is
    exchanged for a new one and ends up revoked, no refresh count being
    consulted. *)
Theorem authService_Refresh_checks_revocation s nowV nowG nowR rnd token :
  (String.eqb token "" = false -> IsTokenRevoked s token = true ->
   authService_RefreshToken s nowV nowG nowR rnd token = (Err ErrTokenRevoked, s))
  ∧ (forall userID,
       ValidateToken s nowV token = Ok userID -> userID ≠ 0%N ->
       (0 < DefaultExpiration (config s))%Z ->
       exists newToken s',
         authService_RefreshToken s nowV nowG nowR rnd token = (Ok newToken, s') ∧
         IsTokenRevoked s' token = true).
Proof.
  unfold authService_RefreshToken; cbn [ts_ValidateToken ts_GenerateToken ts_RevokeToken
    jwtService_TokenService].
  split.
  - intros Hne Hrev. unfold ValidateToken. rewrite Hne, Hrev. reflexivity.
  - intros userID Hv Hu Hd. rewrite Hv.
    destruct (Generate_succeeds s nowG rnd userID (DefaultExpiration (config s)) Hu Hd)
      as (newToken & Hg & _).
    unfold GenerateToken. rewrite Hg.
    eexists _, _. split; [reflexivity |].
    assert (String.eqb token "" = false) as Hne.
    { unfold ValidateToken in Hv. destruct (String.eqb token ""); [discriminate | reflexivity]. }
    destruct (RevokeToken (snd (GenerateTokenWithExpiration s nowG rnd userID
                (DefaultExpiration (config s)))) nowR token) as [r s3] eqn:Hr.
    destruct (Revoke_inv _ _ _ _ _ Hr Hne) as (_ & _ & _ & Hrev & _).
    cbn [snd]. unfold IsTokenRevoked. rewrite Hrev, lookup_insert_eq. reflexivity.
Qed.

(** X9.  Revoking a token twice succeeds both times; the second call
    changes nothing but the revocation timestamp, which becomes that of
    the second call. *)
Theorem Revoke_twice s now1 now2 t s1 :
  RevokeToken s now1 t = (Ok tt, s1) ->
  exists s2,
    RevokeToken s1 now2 t = (Ok tt, s2) ∧
    revokedTokens s2 = <[t := now2]> (revokedTokens s) ∧
    userTokens s2 = userTokens s1 ∧
    tokenUsers s2 = tokenUsers s1 ∧
    refreshCounts s2 = refreshCounts s1.
Proof.
  intros Hr. pose proof (Revoke_ok_nonempty _ _ _ _ Hr) as Hne.
  assert (tokenUsers s1 !! t = None) as Htu.
  { revert Hr. unfold RevokeToken. rewrite Hne.
    destruct (tokenUsers s !! t) as [u |] eqn:Ho.
    - intros [= <-]. cbn. apply lookup_delete_eq.
    - intros [= <-]. cbn. assumption. }
  destruct (Revoke_inv _ _ _ _ _ Hr Hne) as (_ & _ & _ & Hrev & Hrc).
  unfold RevokeToken. rewrite Hne, Htu. eexists. split; [reflexivity |].
  cbn [revokedTokens userTokens tokenUsers refreshCounts].
  rewrite Hrev, Hrc, insert_insert_eq, delete_delete_eq. auto.
Qed.

End TokenServiceMore.

(** *** Instances on the reference library *)

Lemma err_eta {E A S} (p : result E A * S) e :
  fst p = Err e -> p = (Err e, snd p).
Proof. destruct p as [r s]. cbn. intros ->. reflexivity. Qed.

Lemma RevokeAll_revokes_listed_witness :
  ValidateToken (H := refJwt)
    (snd (RevokeAllUserTokens (snd (issued (H := refJwt))) (2 * second) 7))
    (3 * second) issuedToken
  = Err ErrTokenRevoked.
Proof.
  destruct (RevokeAll_revokes_listed (H := refJwt) (snd issued) (2 * second) 7
              [issuedToken (H := refJwt)] ltac:(discriminate)
              ltac:(vm_compute; reflexivity)) as (_ & _ & Hall).
  destruct (Hall (issuedToken (H := refJwt)) ltac:(apply list_elem_of_singleton; reflexivity))
    as (_ & _ & _ & Hv).
  apply Hv. vm_compute. discriminate.
Defined.

Lemma Refresh_failure_keeps_state_witness :
  snd (RefreshToken (H := refJwt) (NewJWTService None) (clockAt 0) [x00] "garbage")
  = NewJWTService None.
Proof.
  apply (Refresh_failure_keeps_state (H := refJwt) (NewJWTService None) (clockAt 0) [x00]
           "garbage" (ErrParseOriginalFailed (ErrParseFailed ErrTokenMalformed))).
  apply err_eta. vm_compute; reflexivity.
Defined.

Lemma Revoke_resets_refresh_count_witness :
  refreshCounts (snd (revoked (H := refJwt))) !! issuedToken (H := refJwt) = None ∧
  exists newTok s2,
    RefreshToken (H := refJwt) (snd revoked) (clockAt (2 * second)) [x01] issuedToken
    = (Ok newTok, s2) ∧
    (newTok ≠ issuedToken -> refreshCounts s2 !! newTok = Some 1%Z).
Proof.
  apply (Revoke_resets_refresh_count (H := refJwt) (snd issued) second issuedToken
           (snd revoked) (clockAt (2 * second)) [x01]
           (claimsFor hourlyConfig 0 [x00] 7 hour)).
  - apply (ok_unit_eta (revoked (H := refJwt))). vm_compute; reflexivity.
  - reflexivity.
  - vm_compute; reflexivity.
  - discriminate.
  - vm_compute; reflexivity.
  - vm_compute; reflexivity.
  - vm_compute; reflexivity.
Defined.

Lemma Generate_outcomes_witness :
  GenerateTokenWithExpiration (H := refJwt) (NewJWTService None) 0 [x00] 0 hour
  = (Err ErrUserIDZero, NewJWTService None)
  ∧ GenerateTokenWithExpiration (H := refJwt) (NewJWTService None) 0 [x00] 7 0
    = (Err ErrExpirationNotPositive, NewJWTService None)
  ∧ exists t s',
      GenerateTokenWithExpiration (H := refJwt) (NewJWTService None) 0 [x00] 7 hour
      = (Ok t, s') ∧
      userTokens s' !! 7%N
      = Some (default [] (userTokens (NewJWTService None) !! 7%N) ++ [t])%list ∧
      tokenUsers s' !! t = Some 7%N.
Proof.
  split; [| split].
  - apply (proj1 (Generate_outcomes (H := refJwt) (NewJWTService None) 0 [x00] 0 hour)).
    reflexivity.
  - apply (proj1 (proj2 (Generate_outcomes (H := refJwt) (NewJWTService None) 0 [x00] 7 0)));
      [discriminate | reflexivity].
  - apply (proj2 (proj2 (Generate_outcomes (H := refJwt) (NewJWTService None) 0 [x00] 7 hour)));
      [discriminate | reflexivity].
Defined.

Lemma RemainingTime_of_issued_witness :
  GetTokenRemainingTime (H := refJwt) (snd (revoked (H := refJwt))) (2 * second) (2 * second)
    issuedToken
  = (if (2 * second <? dateTime (NewNumericDate (0 + hour)))%Z
     then Ok (dateTime (NewNumericDate (0 + hour)) - 2 * second)%Z
     else Err ErrTokenHasExpired)
  ∧ (dateTime (NewNumericDate (0 + hour)) - 2 * second <= hour)%Z.
Proof.
  apply (RemainingTime_of_issued (H := refJwt) (NewJWTService (Some hourlyConfig)) 0 [x00] 7
           hour issuedToken (snd issued) (snd revoked) (2 * second) (2 * second)).
  - apply (ok_eta (issued (H := refJwt))). vm_compute; reflexivity.
  - vm_compute; reflexivity.
  - vm_compute; discriminate.
  - vm_compute; discriminate.
Defined.

Lemma Cleanup_later_subsumes_witness :
  revokedTokens (CleanupExpiredTokens (H := refJwt)
                   (CleanupExpiredTokens (snd (revoked (H := refJwt))) second) (2 * hour))
  = revokedTokens (CleanupExpiredTokens (snd (revoked (H := refJwt))) (2 * hour))
  ∧ revokedTokens (CleanupExpiredTokens (H := refJwt) (snd (revoked (H := refJwt))) second)
    ⊆ revokedTokens (snd (revoked (H := refJwt))).
Proof.
  apply (Cleanup_later_subsumes (H := refJwt) (snd revoked) second (2 * hour)).
  vm_compute; discriminate.
Defined.

Lemma authService_Refresh_checks_revocation_witness :
  authService_RefreshToken (snd (revoked (H := refJwt))) (2 * second) (2 * second)
    (2 * second) [x01] (issuedToken (H := refJwt))
  = (Err ErrTokenRevoked, snd (revoked (H := refJwt)))
  ∧ exists newToken s',
      authService_RefreshToken (snd (issued (H := refJwt))) second second second [x01]
        (issuedToken (H := refJwt))
      = (Ok newToken, s') ∧
      IsTokenRevoked s' issuedToken = true.
Proof.
  split.
  - apply (proj1 (authService_Refresh_checks_revocation (H := refJwt) (snd revoked)
                    (2 * second) (2 * second) (2 * second) [x01] issuedToken));
      vm_compute; reflexivity.
  - apply (proj2 (authService_Refresh_checks_revocation (H := refJwt) (snd issued)
                    second second second [x01] issuedToken) 7%N).
    + vm_compute; reflexivity.
    + discriminate.
    + vm_compute; reflexivity.
Defined.

Lemma Revoke_twice_witness :
  exists s2,
    RevokeToken (snd (revoked (H := refJwt))) (5 * second) (issuedToken (H := refJwt))
    = (Ok tt, s2) ∧
    revokedTokens s2
    = <[issuedToken (H := refJwt) := (5 * second)%Z]>
        (revokedTokens (snd (issued (H := refJwt)))) ∧
    userTokens s2 = userTokens (snd (revoked (H := refJwt))) ∧
    tokenUsers s2 = tokenUsers (snd (revoked (H := refJwt))) ∧
    refreshCounts s2 = refreshCounts (snd (revoked (H := refJwt))).
Proof.
  apply (Revoke_twice (snd (issued (H := refJwt))) second (5 * second) issuedToken
           (snd revoked)).
  apply (ok_unit_eta (revoked (H := refJwt))). vm_compute; reflexivity.
Defined.

(** ** PasswordGenerator: what it returns *)

Lemma secureRandomInt_bound rnd pos max i pos' :
  secureRandomInt rnd pos max = (Ok i, pos') -> (0 <= i < max)%Z.
Proof.
  unfold secureRandomInt. destruct (Z.leb_spec max 0) as [| Hm]; [discriminate |].
  destruct (rnd pos) as [[[[b0 b1] b2] b3] |]; [| discriminate].
  set (r := Z.lor _ _).
  assert (0 <= r)%Z as Hr.
  { subst r. repeat (apply Z.lor_nonneg; split);
      try apply Z.shiftl_nonneg; apply N2Z.is_nonneg. }
  destruct (Z.ltb_spec r 0); [lia |].
  intros [= <- _]. apply Z.rem_bound_pos; lia.
Qed.

(** X10.  [secureRandomInt(max)] fails with the invalid-options error,
    reading nothing, when [max] is not positive; otherwise it reads once,
    and when the read succeeds its result lies in [0, max). *)
Theorem secureRandomInt_range rnd pos max :
  ((max <= 0)%Z -> secureRandomInt rnd pos max = (Err ErrInvalidOptions, pos))
  ∧ ((0 < max)%Z -> snd (secureRandomInt rnd pos max) = S pos)
  ∧ (forall i pos', secureRandomInt rnd pos max = (Ok i, pos') -> (0 <= i < max)%Z).
Proof.
  split; [| split].
  - unfold secureRandomInt. intros Hm. destruct (Z.leb_spec max 0); [reflexivity | lia].
  - unfold secureRandomInt. intros Hm. destruct (Z.leb_spec max 0); [lia |].
    destruct (rnd pos) as [[[[b0 b1] b2] b3] |]; reflexivity.
  - intros i pos'. apply secureRandomInt_bound.
Qed.

Lemma secureRandomInt_range_witness :
  secureRandomInt zeroSource 0 0 = (Err ErrInvalidOptions, 0%nat)
  ∧ snd (secureRandomInt pickingSource 1 82) = 2%nat.
Proof.
  split.
  - apply (proj1 (secureRandomInt_range zeroSource 0%nat 0%Z)). lia.
  - apply (proj1 (proj2 (secureRandomInt_range pickingSource 1%nat 82%Z))). lia.
Defined.

Lemma get_ContainsRune chars : forall n c,
  String.get n chars = Some c -> ContainsRune chars c = true.
Proof.
  induction chars as [| d r IH]; intros n c; cbn [String.get ContainsRune]; [discriminate |].
  destruct n as [| n].
  - intros [= ->]. rewrite Ascii.eqb_refl. reflexivity.
  - intros Hg. rewrite (IH _ _ Hg). apply orb_true_r.
Qed.

Lemma get_in_range chars : forall n,
  (n < String.length chars)%nat -> is_Some (String.get n chars).
Proof.
  induction chars as [| d r IH]; intros n; cbn [String.length String.get]; [lia |].
  destruct n as [| n]; [eauto |]. intros Hn. apply IH. lia.
Qed.

Lemma charAt_ContainsRune chars i :
  (0 <= i < len chars)%Z -> ContainsRune chars (charAt chars i) = true.
Proof.
  intros Hi. unfold charAt.
  destruct (get_in_range chars (Z.to_nat i)) as [c Hc]; [unfold len in Hi; lia |].
  rewrite Hc. cbn. eapply get_ContainsRune. eassumption.
Qed.

Lemma drawPassword_allFrom rnd charset n : forall pos r pos',
  drawPassword rnd pos charset n = (Ok r, pos') -> allFrom charset r = true.
Proof.
  induction n as [| n IH]; intros pos r pos'; cbn [drawPassword].
  - intros [= <- _]. reflexivity.
  - destruct (secureRandomInt rnd pos (len charset)) as [[i | e] pos1] eqn:Hi; [| discriminate].
    destruct (drawPassword rnd pos1 charset n) as [[r1 | e] pos2] eqn:Hd; [| discriminate].
    intros [= <- _]. cbn [allFrom].
    rewrite (IH _ _ _ Hd), andb_true_r.
    apply charAt_ContainsRune.
    eapply secureRandomInt_bound. eassumption.
Qed.

Lemma drawPassword_position rnd charset n : forall pos r pos',
  drawPassword rnd pos charset n = (Ok r, pos') -> pos' = (pos + n)%nat.
Proof.
  induction n as [| n IH]; intros pos r pos'; cbn [drawPassword].
  - intros [= _ <-]. lia.
  - destruct (secureRandomInt rnd pos (len charset)) as [[i | e] pos1] eqn:Hi; [| discriminate].
    destruct (drawPassword rnd pos1 charset n) as [[r1 | e] pos2] eqn:Hd; [| discriminate].
    intros [= _ <-]. apply IH in Hd. subst pos2.
    unfold secureRandomInt in Hi.
    destruct (len charset <=? 0)%Z; [discriminate |].
    destruct (rnd pos) as [[[[b0 b1] b2] b3] |]; [| discriminate].
    injection Hi as _ <-. lia.
Qed.

(** Whenever [GeneratePassword] returns a password, it is made of
    characters of the resolved character set. *)
Lemma GeneratePassword_returned_allFrom fuel rnd options : forall pos r pos',
  GeneratePassword fuel rnd pos options = (Done r, pos') ->
  allFrom (buildCharset options) r = true.
Proof.
  induction fuel as [| fuel IH]; intros pos r pos'; cbn [GeneratePassword]; [discriminate |].
  destruct (validateOptions options) as [[] | e]; [| discriminate].
  destruct (String.eqb (buildCharset options) ""); [discriminate |].
  destruct (drawPassword rnd pos (buildCharset options) (Z.to_nat (Length options)))
    as [[result | e] pos1] eqn:Hd; [| discriminate].
  destruct (meetsRequirements result options) eqn:Hm.
  - intros [= <- _]. eapply drawPassword_allFrom. eassumption.
  - destruct (retryLoop _ _ 10 pos1) as [[[x |] | e |] pos2] eqn:Hl; try discriminate.
    + intros [= <- _].
      eapply (retryLoop_returned _ _ (fun y => allFrom (buildCharset options) y = true)) in Hl;
        [exact (proj1 Hl) |].
      intros p y p' Hg. apply (IH _ _ _ Hg).
    + exfalso. revert Hl. apply retryLoop_no_fallthrough.
      intros p y p' Hg. apply (GeneratePassword_returned _ _ _ _ _ _ Hg).
Qed.

Lemma removeAmbiguous_ContainsRune chars c :
  ContainsRune (removeAmbiguousChars chars) c = true ->
  ContainsRune AmbiguousChars c = false.
Proof.
  induction chars as [| d r IH]; cbn [removeAmbiguousChars ContainsRune]; [discriminate |].
  destruct (ContainsRune AmbiguousChars d) eqn:Hd; [assumption |].
  cbn [ContainsRune]. destruct (Ascii.eqb_spec d c) as [<- | Hne]; [intros _; assumption |].
  cbn. assumption.
Qed.

Lemma allFrom_removeAmbiguous chars r :
  allFrom (removeAmbiguousChars chars) r = true -> ContainsAny r AmbiguousChars = false.
Proof.
  induction r as [| c r IH]; cbn [allFrom ContainsAny]; [reflexivity |].
  intros [Hc Hr]%andb_prop.
  rewrite (removeAmbiguous_ContainsRune _ _ Hc), (IH Hr). reflexivity.
Qed.

(** X11.  [GeneratePassword] never returns a password of the wrong
    length or one that fails [meetsRequirements]: every password it
    returns has exactly [Length] characters and contains each requested
    class (the patching of [ensureRequirements] is never what is
    returned). *)
Theorem GeneratePassword_result_meets fuel rnd pos options r pos' :
  GeneratePassword fuel rnd pos options = (Done r, pos') ->
  len r = Length options ∧ meetsRequirements r options = true.
Proof. apply GeneratePassword_returned. Qed.

Lemma GeneratePassword_result_meets_witness :
  len "aB3$" = Length fourClasses ∧ meetsRequirements "aB3$" fourClasses = true.
Proof.
  apply (GeneratePassword_result_meets 1 pickingSource 0 fourClasses "aB3$" 4).
  vm_compute; reflexivity.
Defined.

(** X12.  Every password [GeneratePassword] returns consists of
    characters of the resolved character set only; with
    [ExcludeAmbiguous] it contains none of the ambiguous characters. *)
Theorem GeneratePassword_result_charset fuel rnd pos options r pos' :
  GeneratePassword fuel rnd pos options = (Done r, pos') ->
  allFrom (buildCharset options) r = true
  ∧ (ExcludeAmbiguous options = true -> ContainsAny r AmbiguousChars = false).
Proof.
  intros Hg. pose proof (GeneratePassword_returned_allFrom _ _ _ _ _ _ Hg) as Hall.
  split; [assumption |]. intros Hex. apply (allFrom_removeAmbiguous
    (if negb (String.eqb (CustomCharset options) "") then CustomCharset options
     else ((if IncludeLower options then LowerChars else "") ++
           (if IncludeUpper options then UpperChars else "") ++
           (if IncludeNumbers options then NumberChars else "") ++
           (if IncludeSymbols options then SymbolChars else ""))%string)).
  unfold buildCharset in Hall. rewrite Hex in Hall.
  destruct (negb (String.eqb (CustomCharset options) "")); assumption.
Qed.

Lemma GeneratePassword_result_charset_witness :
  allFrom (buildCharset fourClasses) "aB3$" = true
  ∧ (ExcludeAmbiguous fourClasses = true -> ContainsAny "aB3$" AmbiguousChars = false).
Proof.
  apply (GeneratePassword_result_charset 1 pickingSource 0 fourClasses "aB3$" 4).
  vm_compute; reflexivity.
Defined.

Lemma drawPassword_succeeds rnd charset n pos :
  (forall k, is_Some (rnd k)) -> (0 < len charset)%Z ->
  exists r, drawPassword rnd pos charset n = (Ok r, (pos + n)%nat).
Proof.
  intros Hrnd Hlen.
  destruct (drawPassword_total rnd charset n pos Hrnd Hlen) as (r & pos' & Hd).
  exists r. rewrite Hd. f_equal. eapply drawPassword_position. eassumption.
Qed.

(** X13.  With a custom character set that is not empty once resolved,
    valid options and a random source that does not fail,
    [GeneratePassword] returns at the first attempt, after exactly
    [Length] reads of the source. *)
Theorem GeneratePassword_custom_returns fuel rnd pos options :
  validateOptions options = Ok tt ->
  CustomCharset options ≠ "" ->
  buildCharset options ≠ "" ->
  (forall k, is_Some (rnd k)) ->
  exists r,
    GeneratePassword (S fuel) rnd pos options
    = (Done r, (pos + Z.to_nat (Length options))%nat).
Proof.
  intros Hv Hc Hb Hrnd. cbn [GeneratePassword]. rewrite Hv.
  destruct (String.eqb_spec (buildCharset options) ""); [contradiction |].
  destruct (drawPassword_succeeds rnd (buildCharset options)
              (Z.to_nat (Length options)) pos Hrnd) as (r & Hd).
  - unfold len. destruct (buildCharset options); [contradiction | cbn [String.length]; lia].
  - rewrite Hd. exists r. unfold meetsRequirements.
    destruct (String.eqb_spec (CustomCharset options) ""); [contradiction |]. reflexivity.
Qed.

Lemma GeneratePassword_custom_returns_witness :
  exists r, GeneratePassword 1 zeroSource 0 customOptions = (Done r, (0 + 6)%nat).
Proof.
  apply (GeneratePassword_custom_returns 0 zeroSource 0 customOptions).
  - reflexivity.
  - discriminate.
  - discriminate.
  - intros k. unfold zeroSource. eauto.
Defined.

Lemma buildCharset_nonempty options :
  validateOptions options = Ok tt ->
  CustomCharset options = "" ->
  String.eqb (buildCharset options) "" = false.
Proof.
  unfold validateOptions, buildCharset. intros Hv Hc. rewrite Hc in *.
  destruct (Length options <=? 0)%Z; [discriminate |].
  destruct (256 <? Length options)%Z; [discriminate |].
  destruct (IncludeLower options), (IncludeUpper options), (IncludeNumbers options),
    (IncludeSymbols options), (ExcludeAmbiguous options);
    cbn in Hv; first [discriminate | vm_compute; reflexivity].
Qed.

Lemma retryLoop_never_fails gen meets attempts : forall pos,
  (forall p e p', gen p ≠ (Failed e, p')) ->
  forall e pos', retryLoop gen meets attempts pos ≠ (Failed e, pos').
Proof.
  induction attempts as [| k IH]; intros pos Hgen e pos'; cbn [retryLoop]; [discriminate |].
  destruct (gen pos) as [[x | ge |] pos1] eqn:Hg.
  - destruct (meets x); [discriminate | apply IH; assumption].
  - exfalso. eapply Hgen. eassumption.
  - discriminate.
Qed.

(** X14.  With valid options that select classes (no custom set) and a
    random source that does not fail, [GeneratePassword] reports no error:
    at every depth it either returns a password or is still recursing. *)
Theorem GeneratePassword_never_fails fuel rnd options :
  validateOptions options = Ok tt ->
  CustomCharset options = "" ->
  (forall k, is_Some (rnd k)) ->
  forall pos e pos', GeneratePassword fuel rnd pos options ≠ (Failed e, pos').
Proof.
  intros Hv Hc Hrnd.
  induction fuel as [| fuel IH]; intros pos e pos'; cbn [GeneratePassword]; [discriminate |].
  rewrite Hv, (buildCharset_nonempty options Hv Hc).
  destruct (drawPassword_succeeds rnd (buildCharset options)
              (Z.to_nat (Length options)) pos Hrnd) as (r & Hd).
  - pose proof (buildCharset_nonempty options Hv Hc) as Hb. unfold len.
    destruct (buildCharset options); [discriminate | cbn [String.length]; lia].
  - rewrite Hd. destruct (meetsRequirements r options); [discriminate |].
    destruct (retryLoop _ _ 10 _) as [[[x |] | le |] pos2] eqn:Hl; try discriminate.
    + destruct (ensureRequirements rnd pos2 r options). discriminate.
    + exfalso. revert Hl. apply retryLoop_never_fails. exact IH.
Qed.

Lemma GeneratePassword_never_fails_witness :
  GeneratePassword 3 zeroSource 0 fourClasses ≠ (Failed ErrInvalidOptions, 0%nat).
Proof.
  apply (GeneratePassword_never_fails 3 zeroSource fourClasses).
  - reflexivity.
  - reflexivity.
  - intros k. unfold zeroSource. eauto.
Defined.

(** ** PasswordStrengthChecker and PasswordPolicyValidator: bounds *)

Lemma charTypeCount_bounds password : (0 <= charTypeCount password <= 4)%Z.
Proof.
  unfold charTypeCount.
  destruct (ContainsAny password LowerChars), (ContainsAny password UpperChars),
    (ContainsAny password NumberChars), (ContainsAny password SymbolChars); lia.
Qed.

Lemma patternAdjustment_le c password : (patternAdjustment c password <= 10)%Z.
Proof.
  unfold patternAdjustment.
  destruct (countUniqueChars password <? Z.quot (len password) 2)%Z,
    (hasSequentialPattern password), (hasRepeatedPattern password),
    (hasKeyboardPattern password),
    (enableDictionaryCheck c && isCommonPassword password); lia.
Qed.

Lemma clampScore_le x b : (x <= b)%Z -> (0 <= b)%Z -> (clampScore x <= b)%Z.
Proof.
  intros Hx Hb. unfold clampScore. cbv zeta.
  destruct (Z.ltb_spec x 0);
    repeat match goal with |- context [(?u <? ?v)%Z] => destruct (Z.ltb_spec u v) end; lia.
Qed.

(** X15.  The score of [CheckStrength] lies between 0 and 90 (the upper
    clamp at 100 is never reached); a password of fewer than 8 characters
    scores at most 50 and is therefore never strong at the default
    threshold of 60. *)
Theorem CheckStrength_bounds c password :
  isASCII password = true ->
  (0 <= Score (CheckStrength c password) <= 90)%Z
  ∧ ((len password < 8)%Z ->
     (Score (CheckStrength c password) <= 50)%Z
     ∧ IsPasswordStrong c DefaultMinStrengthScore password = false).
Proof.
  intros _.
  assert ((0 <= Score (CheckStrength c password) <= 90)%Z
          ∧ ((len password < 8)%Z -> (Score (CheckStrength c password) <= 50)%Z)) as [Hb Hs].
  { destruct (String.eqb_spec password "") as [-> | Hne]; [cbn; lia |].
    rewrite (CheckStrength_score c password Hne).
    pose proof (charTypeCount_bounds password).
    pose proof (patternAdjustment_le c password).
    pose proof (clampScore_nonneg
      (lengthScore (len password) + charTypeCount password * 10
       + patternAdjustment c password)).
    split; [split; [assumption |] |].
    - apply clampScore_le; [| lia]. unfold lengthScore.
      repeat match goal with |- context [(?u <? ?v)%Z] => destruct (Z.ltb_spec u v) end; lia.
    - intros Hlen. apply clampScore_le; [| lia]. unfold lengthScore.
      destruct (Z.ltb_spec (len password) 8); lia. }
  split; [assumption |]. intros Hlen. specialize (Hs Hlen). split; [assumption |].
  unfold IsPasswordStrong, DefaultMinStrengthScore.
  destruct (Z.leb_spec 60 (Score (CheckStrength c password))); [lia | reflexivity].
Qed.

Lemma CheckStrength_bounds_witness :
  (0 <= Score (CheckStrength dictionaryChecker "Ab1!xyz") <= 90)%Z
  ∧ ((len "Ab1!xyz" < 8)%Z ->
     (Score (CheckStrength dictionaryChecker "Ab1!xyz") <= 50)%Z
     ∧ IsPasswordStrong dictionaryChecker DefaultMinStrengthScore "Ab1!xyz" = false).
Proof.
  apply (CheckStrength_bounds dictionaryChecker "Ab1!xyz"). reflexivity.
Defined.

Lemma maxRepeatedFrom_ge rest : forall prev cur mx,
  (mx <= maxRepeatedFrom prev cur mx rest)%Z.
Proof.
  induction rest as [| c r IH]; intros prev cur mx; cbn [maxRepeatedFrom]; [lia |].
  destruct (Ascii.eqb c prev).
  - cbv zeta. destruct (Z.ltb_spec mx (cur + 1)).
    + pose proof (IH c (cur + 1)%Z (cur + 1)%Z). lia.
    + apply IH.
  - apply IH.
Qed.

Lemma repeatedFrom_maxRepeatedFrom rest : forall prev cur mx,
  (cur <= 2)%Z -> (mx <= 2)%Z ->
  (repeatedFrom prev cur rest = true <-> (3 <= maxRepeatedFrom prev cur mx rest)%Z).
Proof.
  induction rest as [| c r IH]; intros prev cur mx Hc Hm;
    cbn [repeatedFrom maxRepeatedFrom].
  - split; [discriminate | lia].
  - destruct (Ascii.eqb c prev).
    + cbv zeta. destruct (Z.leb_spec 3 (cur + 1)) as [H3 | H3].
      * split; [intros _ | reflexivity].
        destruct (Z.ltb_spec mx (cur + 1)); [| lia].
        pose proof (maxRepeatedFrom_ge r c (cur + 1)%Z (cur + 1)%Z). lia.
      * apply IH; [lia |]. destruct (Z.ltb_spec mx (cur + 1)); lia.
    + apply IH; lia.
Qed.

(** X16.  The strength checker's repeated-character test and the policy
    validator's run length agree: [hasRepeatedChars] holds exactly when
    [getMaxRepeatedChars] is 3 or more. *)
Theorem hasRepeatedChars_iff_maxRepeated password :
  hasRepeatedChars password = true <-> (3 <= getMaxRepeatedChars password)%Z.
Proof.
  unfold hasRepeatedChars, getMaxRepeatedChars.
  destruct password as [| a [| b [| c r]]].
  - split; [discriminate | lia].
  - change (false = true <-> (3 <= 1)%Z). split; [discriminate | lia].
  - change (false = true <-> (3 <= maxRepeatedFrom a 1 1 (String b ""))%Z).
    cbn [maxRepeatedFrom]. destruct (Ascii.eqb b a).
    + change (false = true <-> (3 <= 2)%Z). split; [discriminate | lia].
    + split; [discriminate | lia].
  - destruct (Z.ltb_spec (len (String a (String b (String c r)))) 3) as [Hl | Hl].
    + unfold len in Hl. cbn [String.length] in Hl. lia.
    + apply repeatedFrom_maxRepeatedFrom; lia.
Qed.

Lemma violate_inv cond v d acc : (0 < d)%Z -> policyInv acc -> policyInv (violate cond v d acc).
Proof.
  intros Hd [Hle Hiff]. unfold violate, policyInv. destruct cond; [| split; assumption].
  cbn [fst snd]. split; [lia |]. split.
  - intros Hn. apply app_eq_nil in Hn as [_ Hn]. discriminate.
  - intros Hs. exfalso. lia.
Qed.

Lemma foldl_violate_inv (f : string -> bool) patterns : forall acc,
  policyInv acc ->
  policyInv (foldl (fun acc pattern => violate (f pattern) (ForbiddenPattern pattern) 20 acc)
                   acc patterns).
Proof.
  induction patterns as [| p ps IH]; intros acc Hacc; cbn [foldl]; [assumption |].
  apply IH, violate_inv; [lia | assumption].
Qed.

(** X17.  The score of [ValidatePolicy] lies between 0 and 100, and the
    result is valid exactly when no violation is listed, which is exactly
    when the score is 100. *)
Theorem ValidatePolicy_valid_iff password policy :
  isASCII password = true ->
  forallb isASCII (ForbiddenPatterns policy) = true ->
  (0 <= PolicyScore (ValidatePolicy password policy) <= 100)%Z
  ∧ (Valid (ValidatePolicy password policy) = true
     <-> Violations (ValidatePolicy password policy) = [])
  ∧ (Valid (ValidatePolicy password policy) = true
     <-> PolicyScore (ValidatePolicy password policy) = 100%Z).
Proof.
  intros _ _. unfold ValidatePolicy. cbv zeta. cbn [Valid Violations PolicyScore].
  match goal with |- context [fst ?a] => set (acc := a) end.
  assert (policyInv acc) as [Hle Hiff].
  { subst acc. apply foldl_violate_inv.
    repeat (apply violate_inv; [lia |]). split; [cbn; lia | cbn; tauto]. }
  destruct (Z.ltb_spec (snd acc) 0).
  - split; [lia |]. destruct (fst acc) eqn:Hf.
    + assert (snd acc = 100%Z) by tauto. lia.
    + split; split; (discriminate || lia).
  - split; [lia |]. destruct (fst acc) eqn:Hf.
    + split; [tauto |]. split; [tauto | reflexivity].
    + split; split; try discriminate. intros Hs. apply Hiff in Hs. discriminate.
Qed.

Lemma ValidatePolicy_valid_iff_witness :
  (0 <= PolicyScore (ValidatePolicy "Secret123!" defaultPolicy) <= 100)%Z
  ∧ (Valid (ValidatePolicy "Secret123!" defaultPolicy) = true
     <-> Violations (ValidatePolicy "Secret123!" defaultPolicy) = [])
  ∧ (Valid (ValidatePolicy "Secret123!" defaultPolicy) = true
     <-> PolicyScore (ValidatePolicy "Secret123!" defaultPolicy) = 100%Z).
Proof.
  apply (ValidatePolicy_valid_iff "Secret123!" defaultPolicy); reflexivity.
Defined.

Lemma foldl_violate_mono (f : string -> bool) patterns : forall acc v,
  v ∈ fst acc ->
  v ∈ fst (foldl (fun acc pattern => violate (f pattern) (ForbiddenPattern pattern) 20 acc)
                 acc patterns).
Proof.
  induction patterns as [| p ps IH]; intros acc v Hv; cbn [foldl]; [assumption |].
  apply IH. unfold violate. destruct (f p); [| assumption].
  cbn [fst]. apply elem_of_app. auto.
Qed.

Lemma foldl_violate_hit (f : string -> bool) patterns : forall acc pattern,
  pattern ∈ patterns -> f pattern = true ->
  ForbiddenPattern pattern
  ∈ fst (foldl (fun acc pattern => violate (f pattern) (ForbiddenPattern pattern) 20 acc)
               acc patterns).
Proof.
  induction patterns as [| p ps IH]; intros acc pattern Hin Hf; cbn [foldl].
  - apply elem_of_nil in Hin. contradiction.
  - apply elem_of_cons in Hin as [-> | Hin]; [| apply IH; assumption].
    apply foldl_violate_mono. unfold violate. rewrite Hf. cbn [fst].
    apply elem_of_app. right. apply list_elem_of_singleton. reflexivity.
Qed.

Lemma Contains_empty s : Contains s "" = true.
Proof. destruct s; reflexivity. Qed.

(** X18.  A forbidden pattern that occurs in the password, letter case
    aside, is listed among the violations and makes the result invalid; in
    particular a policy with the empty string among its forbidden patterns
    accepts no password. *)
Theorem ValidatePolicy_forbidden password policy pattern :
  isASCII password = true ->
  isASCII pattern = true ->
  pattern ∈ ForbiddenPatterns policy ->
  (Contains (ToLower password) (ToLower pattern) = true ->
   ForbiddenPattern pattern ∈ Violations (ValidatePolicy password policy)
   ∧ Valid (ValidatePolicy password policy) = false)
  ∧ (pattern = "" -> Valid (ValidatePolicy password policy) = false).
Proof.
  intros _ _ Hin.
  assert (Contains (ToLower password) (ToLower pattern) = true ->
          ForbiddenPattern pattern ∈ Violations (ValidatePolicy password policy)
          ∧ Valid (ValidatePolicy password policy) = false) as Hhit.
  { intros Hc. unfold ValidatePolicy. cbv zeta. cbn [Valid Violations].
    match goal with |- context [fst ?a] => set (acc := a) end.
    assert (ForbiddenPattern pattern ∈ fst acc) as Hv.
    { subst acc.
      apply (foldl_violate_hit (fun p => Contains (ToLower password) (ToLower p)));
        assumption. }
    split; [assumption |]. destruct (fst acc); [| reflexivity].
    apply elem_of_nil in Hv. contradiction. }
  split; [assumption |].
  intros ->. apply Hhit. cbn [ToLower]. apply Contains_empty.
Qed.

Lemma ValidatePolicy_forbidden_witness :
  ForbiddenPattern "admin" ∈ Violations (ValidatePolicy "MyAdmin2024x" defaultPolicy)
  ∧ Valid (ValidatePolicy "MyAdmin2024x" defaultPolicy) = false.
Proof.
  apply (proj1 (ValidatePolicy_forbidden "MyAdmin2024x" defaultPolicy "admin"
                  ltac:(reflexivity) ltac:(reflexivity)
                  ltac:(unfold defaultPolicy; cbn [ForbiddenPatterns];
                        repeat (apply elem_of_cons; first [left; reflexivity | right]))));
    reflexivity.
Defined.

(** ** MemoryHistoryStorage and the history check *)

Lemma Storage_Add_ok s now userID hash :
  userID ≠ 0%N -> hash ≠ "" ->
  Storage_Add s now userID hash
  = (Ok tt,
     {| histories :=
          <[userID := (default [] (histories s !! userID)
                       ++ [ {| histUserID := userID; PasswordHash := hash; CreatedAt := now |} ])%list]>
            (histories s) |}).
Proof.
  intros Hu Hh. unfold Storage_Add.
  destruct (N.eqb_spec userID 0); [contradiction |].
  destruct (String.eqb_spec hash ""); [contradiction |]. reflexivity.
Qed.

(** X19.  After [Add(userID, hash)] succeeds, [GetHistory(userID, 0)]
    returns the new entry first, followed by what it returned before;
    [GetHistory(userID, 1)] returns the new entry alone; and the histories
    of the other identities are as they were. *)
Theorem Add_then_GetHistory s now userID hash before :
  userID ≠ 0%N -> hash ≠ "" ->
  Storage_GetHistory s userID 0 = Ok before ->
  let entry := {| histUserID := userID; PasswordHash := hash; CreatedAt := now |} in
  let s' := snd (Storage_Add s now userID hash) in
  fst (Storage_Add s now userID hash) = Ok tt
  ∧ Storage_GetHistory s' userID 0 = Ok (entry :: before)
  ∧ Storage_GetHistory s' userID 1 = Ok [entry]
  ∧ forall other limit, other ≠ userID ->
      Storage_GetHistory s' other limit = Storage_GetHistory s other limit.
Proof.
  intros Hu Hh Hb entry s'. subst s'. rewrite (Storage_Add_ok s now userID hash Hu Hh).
  cbn [fst snd]. split; [reflexivity |].
  unfold Storage_GetHistory in *. cbn [histories].
  destruct (N.eqb_spec userID 0); [contradiction |].
  rewrite lookup_insert_eq.
  assert (reverse (default [] (histories s !! userID)) = before) as Hrev.
  { destruct (histories s !! userID) as [hs |]; cbn [default];
      cbn in Hb; injection Hb as <-; reflexivity. }
  fold entry. rewrite reverse_snoc, Hrev. split; [reflexivity |]. split.
  - change (0 <? 1)%Z with true. cbn [andb].
    destruct (Z.ltb_spec 1 (Z.of_nat (List.length (entry :: before)))) as [Hl | Hl];
      [reflexivity |].
    destruct before; [reflexivity | cbn [List.length] in Hl; lia].
  - intros other limit Hne. destruct (other =? 0)%N; [reflexivity |].
    rewrite lookup_insert_ne by auto. reflexivity.
Qed.

Lemma Add_then_GetHistory_witness :
  Storage_GetHistory (snd (Storage_Add NewMemoryHistoryStorage 5 1 "h1")) 1 1
  = Ok [ {| histUserID := 1; PasswordHash := "h1"; CreatedAt := 5 |} ].
Proof.
  apply (Add_then_GetHistory NewMemoryHistoryStorage 5 1 "h1" []);
    [discriminate | discriminate | reflexivity].
Defined.

Lemma storedHashes_adds userID cs : forall s,
  forallb isAdd cs = true ->
  storedHashes (foldl historyCall s cs) userID
  = (storedHashes s userID ++ addedHashes userID cs)%list.
Proof.
  induction cs as [| c cs IH]; intros s Hall; cbn [foldl addedHashes].
  - rewrite app_nil_r. reflexivity.
  - cbn [forallb] in Hall. apply andb_prop in Hall as [Hc Hcs].
    destruct c as [now u hash | u k]; [| discriminate].
    rewrite (IH _ Hcs). cbn [historyCall]. unfold Storage_Add.
    destruct (N.eqb_spec u 0) as [-> | Hu0].
    + cbn [snd]. rewrite andb_false_r. reflexivity.
    + destruct (String.eqb_spec hash "") as [-> | Hh].
      * cbn [snd]. rewrite andb_false_r. reflexivity.
      * cbn [snd negb]. rewrite !andb_true_r. unfold storedHashes. cbn [histories].
        destruct (N.eqb_spec u userID) as [-> | Hne].
        -- rewrite lookup_insert_eq. cbn [default]; unfold id. rewrite map_app. cbn [map PasswordHash].
           rewrite <- app_assoc. reflexivity.
        -- rewrite lookup_insert_ne by assumption. reflexivity.
Qed.

(** X20.  On a storage that has only seen additions, [Cleanup] of a
    nonzero identity with a bound that is not negative leaves the hashes
    in the order they were added when their number is within the bound,
    and otherwise keeps the [keepCount] most recently added ones, stored
    newest first. *)
Theorem Cleanup_after_additions cs userID keepCount :
  userID ≠ 0%N ->
  forallb isAdd cs = true ->
  (0 <= keepCount)%Z ->
  let s := foldl historyCall NewMemoryHistoryStorage cs in
  let added := addedHashes userID cs in
  fst (Storage_Cleanup s userID keepCount) = Returns (Ok tt)
  ∧ storedHashes (snd (Storage_Cleanup s userID keepCount)) userID
    = if (Z.of_nat (List.length added) <=? keepCount)%Z then added
      else reverse (mostRecent (Z.to_nat keepCount) added).
Proof.
  intros Hu Hall Hk s added.
  pose proof (storedHashes_adds userID cs NewMemoryHistoryStorage Hall) as Hst.
  fold s in Hst. change (storedHashes NewMemoryHistoryStorage userID) with (@nil string) in Hst.
  cbn [app] in Hst. fold added in Hst.
  unfold Storage_Cleanup. destruct (N.eqb_spec userID 0); [contradiction |].
  unfold storedHashes in Hst |- *.
  destruct (histories s !! userID) as [hs |] eqn:Hhs; cbn [default] in Hst; unfold id in Hst.
  - assert (List.length hs = List.length added) as Hlen
      by (rewrite <- Hst; symmetry; apply length_map).
    rewrite Hlen.
    destruct (Z.leb_spec (Z.of_nat (List.length added)) keepCount).
    + cbn [fst snd]. rewrite Hhs. cbn [default]; unfold id. auto.
    + destruct (Z.ltb_spec keepCount 0); [lia |]. cbn [fst snd histories].
      split; [reflexivity |]. rewrite lookup_insert_eq. cbn [default]; unfold id.
      change (map PasswordHash (take (Z.to_nat keepCount) (reverse hs)))
        with (PasswordHash <$> take (Z.to_nat keepCount) (reverse hs)).
      rewrite fmap_take, fmap_reverse, take_reverse.
      change (PasswordHash <$> hs) with (map PasswordHash hs). rewrite Hst. reflexivity.
  - cbn [fst snd]. rewrite Hhs. cbn [default]; unfold id. rewrite <- Hst. cbn [map List.length].
    destruct (Z.leb_spec (Z.of_nat 0) keepCount); [auto | lia].
Qed.

Lemma Cleanup_after_additions_witness :
  let s := foldl historyCall NewMemoryHistoryStorage (take 3 fourChanges) in
  let added := addedHashes 1 (take 3 fourChanges) in
  fst (Storage_Cleanup s 1 2) = Returns (Ok tt)
  ∧ storedHashes (snd (Storage_Cleanup s 1 2)) 1
    = if (Z.of_nat (List.length added) <=? 2)%Z then added
      else reverse (mostRecent (Z.to_nat 2) added).
Proof.
  apply (Cleanup_after_additions (take 3 fourChanges) 1 2);
    [discriminate | reflexivity | lia].
Defined.

(** X21.  [Cleanup] with a negative bound on an identity that has a
    history entry, even an empty one, panics in the slice expression, and
    the stored history is left reversed. *)
Theorem Cleanup_negative_panics s userID keepCount hs :
  userID ≠ 0%N ->
  histories s !! userID = Some hs ->
  (keepCount < 0)%Z ->
  fst (Storage_Cleanup s userID keepCount) = Panics
  ∧ histories (snd (Storage_Cleanup s userID keepCount)) !! userID = Some (reverse hs).
Proof.
  intros Hu Hhs Hk. unfold Storage_Cleanup.
  destruct (N.eqb_spec userID 0); [contradiction |]. rewrite Hhs.
  destruct (Z.leb_spec (Z.of_nat (List.length hs)) keepCount); [lia |].
  destruct (Z.ltb_spec keepCount 0); [| lia].
  cbn [fst snd histories]. split; [reflexivity | apply lookup_insert_eq].
Qed.

Lemma Cleanup_negative_panics_witness :
  fst (Storage_Cleanup (snd (Storage_Add NewMemoryHistoryStorage 5 1 "h1")) 1 (-1)) = Panics.
Proof.
  apply (proj1 (Cleanup_negative_panics (snd (Storage_Add NewMemoryHistoryStorage 5 1 "h1"))
                  1 (-1) [ {| histUserID := 1; PasswordHash := "h1"; CreatedAt := 5 |} ]
                  ltac:(discriminate) ltac:(reflexivity) ltac:(lia))).
Defined.

(** X22.  The entry added last survives the cleanup that follows it:
    after [Add(userID, hash)] and [Cleanup(userID, keepCount)] with
    [keepCount] at least 1, the hash is still stored, whatever the order
    of the entries before. *)
Theorem Add_then_Cleanup_keeps_new s now userID hash keepCount :
  userID ≠ 0%N -> hash ≠ "" ->
  (1 <= keepCount)%Z ->
  fst (Storage_Cleanup (snd (Storage_Add s now userID hash)) userID keepCount)
  = Returns (Ok tt)
  ∧ hash ∈ storedHashes
             (snd (Storage_Cleanup (snd (Storage_Add s now userID hash)) userID keepCount))
             userID.
Proof.
  intros Hu Hh Hk. rewrite (Storage_Add_ok s now userID hash Hu Hh). cbn [snd].
  unfold Storage_Cleanup. destruct (N.eqb_spec userID 0); [contradiction |].
  cbn [histories]. rewrite lookup_insert_eq.
  set (old := default [] (histories s !! userID)).
  set (entry := {| histUserID := userID; PasswordHash := hash; CreatedAt := now |}).
  destruct (Z.leb_spec (Z.of_nat (List.length (old ++ [entry]))) keepCount).
  - cbn [fst snd]. split; [reflexivity |]. unfold storedHashes. cbn [histories].
    rewrite lookup_insert_eq. cbn [default]; unfold id. rewrite map_app.
    apply elem_of_app. right. apply list_elem_of_singleton. reflexivity.
  - destruct (Z.ltb_spec keepCount 0); [lia |]. cbn [fst snd].
    split; [reflexivity |]. unfold storedHashes. cbn [histories].
    rewrite lookup_insert_eq. cbn [default]; unfold id. rewrite reverse_snoc.
    destruct (Z.to_nat keepCount) as [| k] eqn:Hn; [lia |].
    cbn [take map]. apply elem_of_cons. left. reflexivity.
Qed.

Lemma Add_then_Cleanup_keeps_new_witness :
  "h4" ∈ storedHashes
           (snd (Storage_Cleanup
                   (snd (Storage_Add
                           (foldl historyCall NewMemoryHistoryStorage (take 4 fourChanges))
                           4 1 "h4")) 1 2)) 1.
Proof.
  apply (proj2 (Add_then_Cleanup_keeps_new
                  (foldl historyCall NewMemoryHistoryStorage (take 4 fourChanges))
                  4 1 "h4" 2 ltac:(discriminate) ltac:(discriminate) ltac:(lia))).
Defined.

(** X23.  The history check: after [Add(userID, hash)] a password that
    verifies against [hash] is reported as used, and after
    [Cleanup(userID, 0)] no password is; an empty password is an error
    and so is identity 0. *)
Theorem CheckHistory_add_cleanup bcryptCompare s now userID hash password :
  userID ≠ 0%N -> hash ≠ "" -> password ≠ "" ->
  (bcryptCompare hash password = true ->
   CheckHistory bcryptCompare (snd (Storage_Add s now userID hash)) userID password = Ok true)
  ∧ CheckHistory bcryptCompare (snd (Storage_Cleanup s userID 0)) userID password = Ok false
  ∧ CheckHistory bcryptCompare s userID "" = Err ErrPasswordEmpty
  ∧ CheckHistory bcryptCompare s 0 password = Err ErrInvalidUserID.
Proof.
  intros Hu Hh Hp. unfold CheckHistory.
  destruct (String.eqb_spec password ""); [contradiction |].
  split; [| split; [| split; reflexivity]].
  - intros Hc. rewrite (Storage_Add_ok s now userID hash Hu Hh). cbn [snd].
    unfold Storage_GetHistory. destruct (N.eqb_spec userID 0); [contradiction |].
    cbn [histories]. rewrite lookup_insert_eq, reverse_snoc.
    change (0 <? 0)%Z with false. cbn [andb existsb PasswordHash].
    unfold PasswordHasher_Verify at 1.
    destruct (String.eqb_spec password ""); [contradiction |].
    destruct (String.eqb_spec hash ""); [contradiction |].
    cbn [orb]. rewrite Hc. reflexivity.
  - unfold Storage_Cleanup, Storage_GetHistory.
    destruct (N.eqb_spec userID 0); [contradiction |].
    destruct (histories s !! userID) as [hs |] eqn:Hhs; cbn [snd].
    + destruct (Z.leb_spec (Z.of_nat (List.length hs)) 0).
      * cbn [snd]. rewrite Hhs. destruct hs; [reflexivity | cbn [List.length] in *; lia].
      * change (0 <? 0)%Z with false. cbn [snd histories andb].
        rewrite lookup_insert_eq. reflexivity.
    + rewrite Hhs. reflexivity.
Qed.

Lemma CheckHistory_add_cleanup_witness :
  CheckHistory String.eqb (snd (Storage_Add NewMemoryHistoryStorage 5 1 "pw")) 1 "pw" = Ok true.
Proof.
  apply (proj1 (CheckHistory_add_cleanup String.eqb NewMemoryHistoryStorage 5 1 "pw" "pw"
                  ltac:(discriminate) ltac:(discriminate) ltac:(discriminate))).
  reflexivity.
Defined.

(** ** Hashers: cost and verification *)

Lemma SetCost_in_range h c :
  (bcryptMinCost <= cost h <= bcryptMaxCost)%Z ->
  (bcryptMinCost <= cost (SetCost h c) <= bcryptMaxCost)%Z.
Proof.
  intros Hh. unfold SetCost.
  destruct (Z.leb_spec bcryptMinCost c), (Z.leb_spec c bcryptMaxCost); cbn; lia.
Qed.

(** X24.  The cost of a hasher always lies in the range bcrypt accepts:
    [NewPasswordHasher] replaces a cost outside the range by the default,
    and [SetCost] ignores one; a cost inside the range is taken as it
    is. *)
Theorem hasher_cost_in_range c costs :
  let h := foldl SetCost (NewPasswordHasher c) costs in
  (bcryptMinCost <= GetCost h <= bcryptMaxCost)%Z
  ∧ (forall h' c', (bcryptMinCost <= c' <= bcryptMaxCost)%Z -> GetCost (SetCost h' c') = c')
  ∧ (forall h' c', (c' < bcryptMinCost ∨ bcryptMaxCost < c')%Z ->
       SetCost h' c' = h').
Proof.
  cbn zeta. split; [| split].
  - assert (bcryptMinCost <= cost (NewPasswordHasher c) <= bcryptMaxCost)%Z as Hinit.
    { unfold NewPasswordHasher.
      destruct (Z.ltb_spec c bcryptMinCost), (Z.ltb_spec bcryptMaxCost c); cbn;
        unfold bcryptMinCost, bcryptMaxCost, bcryptDefaultCost in *; lia. }
    revert Hinit. generalize (NewPasswordHasher c).
    induction costs as [| x xs IH]; intros h Hh; cbn [foldl]; [exact Hh |].
    apply IH, SetCost_in_range, Hh.
  - intros h' c' Hc. unfold SetCost, GetCost.
    destruct (Z.leb_spec bcryptMinCost c'), (Z.leb_spec c' bcryptMaxCost); cbn; lia.
  - intros h' c' Hc. unfold SetCost.
    destruct (Z.leb_spec bcryptMinCost c'), (Z.leb_spec c' bcryptMaxCost); cbn;
      (reflexivity || lia).
Qed.

Lemma hasher_cost_in_range_witness :
  GetCost (SetCost (NewPasswordHasher 100) 12) = 12%Z.
Proof.
  apply (proj1 (proj2 (hasher_cost_in_range 100 [])) (NewPasswordHasher 100) 12%Z).
  unfold bcryptMinCost, bcryptMaxCost. lia.
Defined.

Lemma splitAtSeparator_app a b :
  separatorFree a = true -> splitAtSeparator (a ++ "$" ++ b) = Some (a, b).
Proof.
  induction a as [| c a IH]; cbn [separatorFree String.append splitAtSeparator].
  - intros _. reflexivity.
  - intros [Hc Ha]%andb_prop. apply negb_true_iff in Hc.
    change (String c a ++ "$" ++ b) with (String c (a ++ "$" ++ b)).
    cbn [splitAtSeparator]. rewrite Hc, (IH Ha). reflexivity.
Qed.

Lemma ConstantTimeCompare_refl x : ConstantTimeCompare x x = true.
Proof.
  induction x as [| a x IH]; cbn [ConstantTimeCompare]; [reflexivity |].
  rewrite IH, andb_true_r. destruct a; reflexivity.
Qed.

Lemma ConstantTimeCompare_eq x : forall y, ConstantTimeCompare x y = true -> x = y.
Proof.
  induction x as [| a x IH]; intros [| b y]; cbn [ConstantTimeCompare];
    try (reflexivity || discriminate).
  intros [Hab Hxy]%andb_prop. f_equal; [| apply IH; assumption].
  apply Byte.byte_dec_bl. assumption.
Qed.

(** X25.  [authService]: a password verifies against its own hash, and a
    password whose derived key differs does not, for any encoding whose
    output has no ['$'] and decodes back to its input (as standard base64
    does).  The empty password is no exception: it verifies against the
    hash [HashPassword] makes of it. *)
Theorem authService_hash_then_verify argon2 encode decode passwordConfig salt password hashed :
  (forall bs, separatorFree (encode bs) = true) ->
  (forall bs, decode (encode bs) = Some bs) ->
  authService_HashPassword argon2 encode passwordConfig (Some salt) password = Ok hashed ->
  authService_VerifyPassword argon2 decode passwordConfig password hashed = Ok true
  ∧ forall other,
      argon2 other salt (cfgTime passwordConfig) (cfgMemory passwordConfig)
             (cfgThreads passwordConfig) (cfgKeyLen passwordConfig)
      ≠ argon2 password salt (cfgTime passwordConfig) (cfgMemory passwordConfig)
               (cfgThreads passwordConfig) (cfgKeyLen passwordConfig) ->
      authService_VerifyPassword argon2 decode passwordConfig other hashed = Ok false.
Proof.
  intros Hfree Hdec. unfold authService_HashPassword. intros [= <-].
  unfold authService_VerifyPassword.
  rewrite splitAtSeparator_app by apply Hfree. rewrite !Hdec.
  split; [rewrite ConstantTimeCompare_refl; reflexivity |].
  intros other Hne. destruct (ConstantTimeCompare _ _) eqn:Hc; [| reflexivity].
  apply ConstantTimeCompare_eq in Hc. exfalso. apply Hne. symmetry. assumption.
Qed.

Lemma hexEncode_separatorFree bs : separatorFree (hexEncodeToString bs) = true.
Proof.
  induction bs as [| b bs IH]; [reflexivity |].
  cbn [hexEncodeToString separatorFree]. rewrite IH. destruct b; reflexivity.
Qed.

Lemma hexDecode_hexEncode bs : hexDecodeString (hexEncodeToString bs) = Some bs.
Proof.
  induction bs as [| b bs IH]; [reflexivity |].
  cbn [hexEncodeToString hexDecodeString]. rewrite IH. destruct b; reflexivity.
Qed.

Lemma authService_hash_then_verify_witness :
  authService_VerifyPassword sampleKey hexDecodeString DefaultPasswordConfig "secret"
    (tokenOf (authService_HashPassword sampleKey hexEncodeToString DefaultPasswordConfig
                (Some [x01; x02]) "secret"))
  = Ok true.
Proof.
  apply (proj1 (authService_hash_then_verify sampleKey hexEncodeToString hexDecodeString
                  DefaultPasswordConfig [x01; x02] "secret" _
                  hexEncode_separatorFree hexDecode_hexEncode ltac:(reflexivity))).
Defined.
